(** * SimpleDuration: the [Duration] value class of [src/duration.ts]

    A shallow embedding of the TypeScript class [Duration] together with the
    properties of its factories, accessors and arithmetic.

    Numbers.  A JavaScript [number] is modelled by [number] below: a
    rational, or one of the three special values [Infinity], [-Infinity] and
    [NaN] that the class itself manipulates ([Number.POSITIVE_INFINITY] in the
    constructor).  Two arithmetics are defined on it.  [Num] computes the
    exact result of each operation; the class over [Num] is the class in exact
    arithmetic, and it decides every property that depends on flags, checks,
    comparisons and the order of evaluation only.  [Num64] rounds each exact
    result to the nearest IEEE 754 binary64 value as JavaScript does; the class
    over [Num64] is module [Rounded], and it decides the properties that
    depend on what the arithmetic returns.

    Errors.  The class validates through the external package
    [@awkewainze/checkverify]; its four entry points used here are modelled in
    module [Check].

    Randomness.  [Math.random] is a stateful source of numbers in [0, 1); it is
    modelled by an explicit [RandomSource] that is threaded through
    [Duration.between]. *)

From Stdlib Require Import QArith Qround Qminmax Qpower ZArith Lia Lqa String Bool.
From Stdlib Require SpecFloat.

Local Open Scope Q_scope.

(** ** JavaScript numbers *)

Inductive number : Type :=
| Fin (q : Q)
| PosInf
| NegInf
| NaN.

Module Num.

(** Sign of a number, [None] for [NaN]. *)
Definition sign (x : number) : option comparison :=
  match x with
  | Fin q => Some (q ?= 0)
  | PosInf => Some Gt
  | NegInf => Some Lt
  | NaN => None
  end.

Definition neg (x : number) : number :=
  match x with
  | Fin q => Fin (- q)
  | PosInf => NegInf
  | NegInf => PosInf
  | NaN => NaN
  end.

(** [x + y], exact: the sum before it is rounded. *)
Definition add (x y : number) : number :=
  match x, y with
  | NaN, _ | _, NaN => NaN
  | Fin a, Fin b => Fin (a + b)
  | PosInf, NegInf | NegInf, PosInf => NaN
  | PosInf, _ | _, PosInf => PosInf
  | NegInf, _ | _, NegInf => NegInf
  end.

(** [x - y], exact. *)
Definition sub (x y : number) : number := add x (neg y).

(** An infinity whose sign is the product of two signs; [0 * Infinity] is
    [NaN]. *)
Definition signed_inf (s t : comparison) : number :=
  match s, t with
  | Eq, _ | _, Eq => NaN
  | Gt, Gt | Lt, Lt => PosInf
  | Gt, Lt | Lt, Gt => NegInf
  end.

(** [x * y], exact: the product before it is rounded. *)
Definition mul (x y : number) : number :=
  match x, y with
  | Fin a, Fin b => Fin (a * b)
  | _, _ =>
      match sign x, sign y with
      | Some s, Some t => signed_inf s t
      | _, _ => NaN
      end
  end.

(** [x / y], exact: the quotient before it is rounded. *)
Definition div (x y : number) : number :=
  match x, y with
  | NaN, _ | _, NaN => NaN
  | Fin a, Fin b =>
      match b ?= 0 with
      | Eq => match a ?= 0 with
              | Eq => NaN
              | Gt => PosInf
              | Lt => NegInf
              end
      | _ => Fin (a / b)
      end
  | Fin _, _ => Fin 0
  | _, Fin b =>
      match b ?= 0 with
      | Lt => neg x
      | _ => x
      end
  | _, _ => NaN
  end.

(** [x < y] *)
Definition ltb (x y : number) : bool :=
  match x, y with
  | NaN, _ | _, NaN => false
  | Fin a, Fin b => match a ?= b with Lt => true | _ => false end
  | PosInf, _ | _, NegInf => false
  | NegInf, _ | _, PosInf => true
  end.

(** [x === y] *)
Definition eqb (x y : number) : bool :=
  match x, y with
  | Fin a, Fin b => Qeq_bool a b
  | PosInf, PosInf => true
  | NegInf, NegInf => true
  | _, _ => false
  end.

(** [x <= y] *)
Definition leb (x y : number) : bool := ltb x y || eqb x y.

(** [Math.floor(x)] *)
Definition floor (x : number) : number :=
  match x with
  | Fin q => Fin (inject_Z (Qfloor q))
  | _ => x
  end.

(** [Number.isFinite(x)] *)
Definition is_finite (x : number) : bool :=
  match x with
  | Fin _ => true
  | _ => false
  end.

(** [Number.MAX_VALUE], the largest finite double: (2^53 - 1) * 2^971. *)
Definition MAX_VALUE : number :=
  Fin (inject_Z ((2 ^ 53 - 1) * 2 ^ 971)).

(** [Number.POSITIVE_INFINITY] *)
Definition POSITIVE_INFINITY : number := PosInf.

End Num.

(** ** Errors and fallible results *)

(** The two error kinds raised by the class; each carries the optional
    message handed to the failing check. *)
Inductive error : Type :=
| InvalidArgument (message : option string)
| InvalidOperation (message : option string).

Inductive result (A : Type) : Type :=
| Ok (a : A)
| Err (e : error).

Arguments Ok {A} a.
Arguments Err {A} e.

Definition bind {A B : Type} (r : result A) (k : A -> result B) : result B :=
  match r with
  | Ok a => k a
  | Err e => Err e
  end.

Notation "x <- r ;; k" := (bind r (fun x => k))
  (at level 61, r at next level, right associativity).
Notation "r ;;; k" := (bind r (fun _ => k))
  (at level 61, right associativity).

(** ** The class [Duration] *)

(** The two private fields of an instance. *)
Record Duration : Type := mkDuration {
  this_milliseconds : number;
  this_forever : bool
}.

(** A JavaScript value handed where a [Duration] is expected. *)
Inductive value : Type :=
| Null
| Undefined
| NotDuration
| Dur (d : Duration).

(** [v instanceof Duration] *)
Definition instanceof_Duration (v : value) : bool :=
  match v with
  | Dur _ => true
  | _ => false
  end.

Module Check.

(** Modelled from the spec: the package [@awkewainze/checkverify] is an
    external dependency.  [Check.verify(condition, message)] fails with
    [InvalidOperation] when the condition is false. *)
Definition verify (condition : bool) (message : option string) : result unit :=
  if condition then Ok tt else Err (InvalidOperation message).

(** Modelled from the spec: [Check.verifyNotNullOrUndefined(value)] fails with
    [InvalidArgument] on [null] and [undefined]. *)
Definition verifyNotNullOrUndefined (v : value) : result unit :=
  match v with
  | Null | Undefined => Err (InvalidArgument None)
  | _ => Ok tt
  end.

(** Modelled from the spec: [Check.verifyNotNegative(value, message)] fails
    with [InvalidArgument] when the value is negative. *)
Definition verifyNotNegative (x : number) (message : option string)
  : result unit :=
  if Num.ltb x (Fin 0) then Err (InvalidArgument message) else Ok tt.

(** Modelled from the spec: [Check.verifyPositive(value)] fails with
    [InvalidArgument] when the value is not strictly positive. *)
Definition verifyPositive (x : number) : result unit :=
  if Num.ltb (Fin 0) x then Ok tt else Err (InvalidArgument None).

End Check.

(** [new Duration(milliseconds, forever = false)] *)
Definition new_Duration (milliseconds : number) (forever : bool) : Duration :=
  {| this_milliseconds :=
       if forever then Num.POSITIVE_INFINITY else milliseconds;
     this_forever := forever |}.

Definition toMilliseconds (this : Duration) : result number :=
  Check.verify (negb (this_forever this))
    (Some "Can't convert forever to milliseconds"%string) ;;;
  Ok (this_milliseconds this).

Definition toSeconds (this : Duration) : result number :=
  Check.verify (negb (this_forever this))
    (Some "Can't convert forever to seconds"%string) ;;;
  Ok (Num.div (this_milliseconds this) (Fin 1000)).

Definition toMinutes (this : Duration) : result number :=
  Check.verify (negb (this_forever this))
    (Some "Can't convert forever to minutes"%string) ;;;
  s <- toSeconds this ;;
  Ok (Num.div s (Fin 60)).

Definition toHours (this : Duration) : result number :=
  Check.verify (negb (this_forever this))
    (Some "Can't convert forever to hours"%string) ;;;
  m <- toMinutes this ;;
  Ok (Num.div m (Fin 60)).

Definition toDays (this : Duration) : result number :=
  Check.verify (negb (this_forever this))
    (Some "Can't convert forever to days"%string) ;;;
  h <- toHours this ;;
  Ok (Num.div h (Fin 24)).

Definition isForever (this : Duration) : bool := this_forever this.

Definition add (this : Duration) (duration : value) : result Duration :=
  Check.verifyNotNullOrUndefined duration ;;;
  Check.verify (instanceof_Duration duration) None ;;;
  match duration with
  | Dur duration =>
      ms <- toMilliseconds duration ;;
      Ok (new_Duration (Num.add (this_milliseconds this) ms)
            (this_forever this || this_forever duration))
  | _ => Err (InvalidOperation None)
  end.

Definition multiply (this : Duration) (times : number) : result Duration :=
  Check.verifyPositive times ;;;
  Ok (new_Duration (Num.mul (this_milliseconds this) times) (this_forever this)).

Definition must_be_positive : option string :=
  Some "Duration must be positive"%string.

Definition fromMilliseconds (milliseconds : number) : result Duration :=
  Check.verifyNotNegative milliseconds must_be_positive ;;;
  Ok (new_Duration milliseconds false).

Definition fromSeconds (seconds : number) : result Duration :=
  Check.verifyNotNegative seconds must_be_positive ;;;
  Ok (new_Duration (Num.mul seconds (Fin 1000)) false).

Definition fromMinutes (minutes : number) : result Duration :=
  Check.verifyNotNegative minutes must_be_positive ;;;
  fromSeconds (Num.mul minutes (Fin 60)).

Definition fromHours (hours : number) : result Duration :=
  Check.verifyNotNegative hours must_be_positive ;;;
  fromMinutes (Num.mul hours (Fin 60)).

Definition fromDays (days : number) : result Duration :=
  Check.verifyNotNegative days must_be_positive ;;;
  fromHours (Num.mul days (Fin 24)).

(** [Duration.forever()] *)
Definition forever (_ : unit) : Duration :=
  new_Duration Num.MAX_VALUE true.

(** ** The random source *)

(** The state behind [Math.random]: the numbers it is going to return and
    how many of them have been consumed. *)
Record RandomSource : Type := mkRandomSource {
  samples : nat -> Q;
  consumed : nat
}.

(** Every sample lies in [0, 1), as [Math.random] guarantees. *)
Definition valid_source (rs : RandomSource) : Prop :=
  forall n : nat, 0 <= samples rs n /\ samples rs n < 1.

(** [Math.random()] *)
Definition Math_random (rs : RandomSource) : number * RandomSource :=
  (Fin (samples rs (consumed rs)),
   {| samples := samples rs; consumed := S (consumed rs) |}).

(** [Duration.randInt(max)] *)
Definition randInt (max : number) (rs : RandomSource)
  : number * RandomSource :=
  let (r, rs') := Math_random rs in
  (Num.floor (Num.mul r max), rs').

(** The operand of [between] as a number: [Number.MAX_VALUE] stands for
    forever. *)
Definition effective_magnitude (d : Duration) : result number :=
  if isForever d then Ok Num.MAX_VALUE else toMilliseconds d.

(** [Duration.between(a, b)] *)
Definition between (a b : value) (rs : RandomSource)
  : result Duration * RandomSource :=
  match
    Check.verifyNotNullOrUndefined a ;;;
    Check.verifyNotNullOrUndefined b ;;;
    Check.verify (instanceof_Duration a) None ;;;
    Check.verify (instanceof_Duration b) None
  with
  | Err e => (Err e, rs)
  | Ok _ =>
      match a, b with
      | Dur a, Dur b =>
          if isForever a && isForever b then (Ok (forever tt), rs)
          else
            match effective_magnitude a, effective_magnitude b with
            | Ok left', Ok right' =>
                if Num.ltb left' right' then
                  let (n, rs') := randInt (Num.sub right' left') rs in
                  (fromMilliseconds (Num.add n left'), rs')
                else if Num.ltb right' left' then
                  let (n, rs') := randInt (Num.sub left' right') rs in
                  (fromMilliseconds (Num.add n right'), rs')
                else (Ok a, rs)
            | Err e, _ | _, Err e => (Err e, rs)
            end
      | _, _ => (Err (InvalidOperation None), rs)
      end
  end.

(** ** Outcomes and invariants used in the statements *)

Definition throws_InvalidArgument {A : Type} (r : result A) : Prop :=
  exists message, r = Err (InvalidArgument message).

Definition throws_InvalidOperation {A : Type} (r : result A) : Prop :=
  exists message, r = Err (InvalidOperation message).

Definition returns {A : Type} (r : result A) : Prop :=
  exists a, r = Ok a.

(** The result is a number that is [===] to [expected]. *)
Definition returns_number (r : result number) (expected : number) : Prop :=
  exists v, r = Ok v /\ Num.eqb v expected = true.


(** What the private constructor establishes: a forever instance stores
    [Infinity]. *)
Definition constructed (d : Duration) : Prop :=
  this_forever d = true -> this_milliseconds d = PosInf.

(** The data-model invariant of the specification. *)
Definition invariant (d : Duration) : Prop :=
  if this_forever d then this_milliseconds d = PosInf
  else exists q, this_milliseconds d = Fin q /\ 0 <= q.

(** Instances obtainable from the public factories and operations, when
    every numeric argument handed to them satisfies [admissible]. *)
Inductive reachable_from (admissible : number -> Prop) : Duration -> Prop :=
| reach_fromMilliseconds x d :
    admissible x -> fromMilliseconds x = Ok d -> reachable_from admissible d
| reach_fromSeconds x d :
    admissible x -> fromSeconds x = Ok d -> reachable_from admissible d
| reach_fromMinutes x d :
    admissible x -> fromMinutes x = Ok d -> reachable_from admissible d
| reach_fromHours x d :
    admissible x -> fromHours x = Ok d -> reachable_from admissible d
| reach_fromDays x d :
    admissible x -> fromDays x = Ok d -> reachable_from admissible d
| reach_forever :
    reachable_from admissible (forever tt)
| reach_add a b d :
    reachable_from admissible a -> reachable_from admissible b ->
    add a (Dur b) = Ok d -> reachable_from admissible d
| reach_multiply a times d :
    reachable_from admissible a -> admissible times ->
    multiply a times = Ok d -> reachable_from admissible d
| reach_between a b rs d :
    reachable_from admissible a -> reachable_from admissible b ->
    valid_source rs ->
    fst (between (Dur a) (Dur b) rs) = Ok d -> reachable_from admissible d.

(** Any JavaScript number may be passed. *)
Definition reachable : Duration -> Prop := reachable_from (fun _ => True).

(** A source that always returns the same sample. *)
Definition constant_source (q : Q) : RandomSource :=
  {| samples := fun _ => q; consumed := 0 |}.

(** [v === null || v === undefined] *)
Definition is_null_or_undefined (v : value) : bool :=
  match v with
  | Null | Undefined => true
  | _ => false
  end.

(** ** Double-precision arithmetic *)

(** The operations of [Num] give the exact result of an operation on two
    numbers.  A JavaScript number is an IEEE 754 binary64 value, and each
    arithmetic operation of the language returns that exact result rounded to
    the nearest binary64 value, ties to even, or an infinity when the rounded
    value exceeds [Number.MAX_VALUE].  [Num64] is this arithmetic.  Signed
    zero is not modelled. *)
Module Num64.

(** [2^e] *)
Definition pow2 (e : Z) : Q := 2 ^ e.

(** [floor (log2 q)] of a positive rational. *)
Definition ilog2 (q : Q) : Z :=
  let k := (Z.log2 (Qnum q) - Z.log2 (Zpos (Qden q)))%Z in
  if Qle_bool (pow2 k) q then k else (k - 1)%Z.

(** The nearest integer, ties to even. *)
Definition rne (x : Q) : Z :=
  let f := Qfloor x in
  match Qcompare (x - inject_Z f) (1 # 2) with
  | Lt => f
  | Gt => (f + 1)%Z
  | Eq => if Z.even f then f else (f + 1)%Z
  end.

(** The exponent of the last of the 53 bits of a positive rational;
    subnormal numbers share the exponent -1074. *)
Definition cexp (q : Q) : Z := Z.max (ilog2 q - 52) (-1074).

(** The multiple of [2^e] nearest to [q]. *)
Definition round_at (e : Z) (q : Q) : Q :=
  inject_Z (rne (q * pow2 (- e))) * pow2 e.

(** A non-negative rational rounded to 53 bits, with no bound on the
    exponent from above. *)
Definition rnd (q : Q) : Q := round_at (cexp (Qred q)) (Qred q).

(** [Number.MAX_VALUE] as a rational. *)
Definition max_value : Q := inject_Z ((2 ^ 53 - 1) * 2 ^ 971).

(** The binary64 value of a rational: rounding to nearest, ties to even,
    overflow to an infinity. *)
Definition round64 (q : Q) : number :=
  match Qcompare q 0 with
  | Lt =>
      let v := rnd (- q) in
      if Qle_bool v max_value then Fin (Qred (- v)) else NegInf
  | _ =>
      let v := rnd q in
      if Qle_bool v max_value then Fin (Qred v) else PosInf
  end.

Definition round (x : number) : number :=
  match x with
  | Fin q => round64 q
  | _ => x
  end.

(** The rational is a binary64 value. *)
Definition representable (q : Q) : bool := Num.eqb (round64 q) (Fin q).

(** [x + y] on doubles *)
Definition add (x y : number) : number := round (Num.add x y).

(** [x - y] on doubles *)
Definition sub (x y : number) : number := round (Num.sub x y).

(** [x * y] on doubles *)
Definition mul (x y : number) : number := round (Num.mul x y).

(** [x / y] on doubles *)
Definition div (x y : number) : number := round (Num.div x y).

(** The number denoted by a value of the Standard Library's reference
    implementation of IEEE 754, against which [Num64] is checked below. *)
Definition of_spec_float (x : SpecFloat.spec_float) : number :=
  match x with
  | SpecFloat.S754_zero _ => Fin 0
  | SpecFloat.S754_infinity s => if s then NegInf else PosInf
  | SpecFloat.S754_nan => NaN
  | SpecFloat.S754_finite s m e =>
      let v := inject_Z (Zpos m) * pow2 e in
      Fin (Qred (if s then - v else v))
  end.

End Num64.

(** Non-negative numbers with a 53-bit significand and an exponent of at
    least -1074: the non-negative doubles, without the bound on the exponent
    from above. *)
Definition Fnum (f : Q) : Prop :=
  exists z e, (-1074 <= e)%Z /\ (0 <= z < 2 ^ 53)%Z /\
              f == inject_Z z * Num64.pow2 e.

(** ** The class [Duration] on doubles *)

(** The methods of the class that compute, with every arithmetic result
    rounded as the language does.  The constructor, [toMilliseconds],
    [isForever], [fromMilliseconds], [forever] and the checks perform no
    arithmetic and are shared with the definitions above. *)
Module Rounded.

Definition toSeconds (this : Duration) : result number :=
  Check.verify (negb (this_forever this))
    (Some "Can't convert forever to seconds"%string) ;;;
  Ok (Num64.div (this_milliseconds this) (Fin 1000)).

Definition toMinutes (this : Duration) : result number :=
  Check.verify (negb (this_forever this))
    (Some "Can't convert forever to minutes"%string) ;;;
  s <- toSeconds this ;;
  Ok (Num64.div s (Fin 60)).

Definition toHours (this : Duration) : result number :=
  Check.verify (negb (this_forever this))
    (Some "Can't convert forever to hours"%string) ;;;
  m <- toMinutes this ;;
  Ok (Num64.div m (Fin 60)).

Definition toDays (this : Duration) : result number :=
  Check.verify (negb (this_forever this))
    (Some "Can't convert forever to days"%string) ;;;
  h <- toHours this ;;
  Ok (Num64.div h (Fin 24)).

Definition add (this : Duration) (duration : value) : result Duration :=
  Check.verifyNotNullOrUndefined duration ;;;
  Check.verify (instanceof_Duration duration) None ;;;
  match duration with
  | Dur duration =>
      ms <- toMilliseconds duration ;;
      Ok (new_Duration (Num64.add (this_milliseconds this) ms)
            (this_forever this || this_forever duration))
  | _ => Err (InvalidOperation None)
  end.

Definition multiply (this : Duration) (times : number) : result Duration :=
  Check.verifyPositive times ;;;
  Ok (new_Duration (Num64.mul (this_milliseconds this) times)
        (this_forever this)).

Definition fromSeconds (seconds : number) : result Duration :=
  Check.verifyNotNegative seconds must_be_positive ;;;
  Ok (new_Duration (Num64.mul seconds (Fin 1000)) false).

Definition fromMinutes (minutes : number) : result Duration :=
  Check.verifyNotNegative minutes must_be_positive ;;;
  fromSeconds (Num64.mul minutes (Fin 60)).

Definition fromHours (hours : number) : result Duration :=
  Check.verifyNotNegative hours must_be_positive ;;;
  fromMinutes (Num64.mul hours (Fin 60)).

Definition fromDays (days : number) : result Duration :=
  Check.verifyNotNegative days must_be_positive ;;;
  fromHours (Num64.mul days (Fin 24)).

(** [Duration.randInt(max)] *)
Definition randInt (max : number) (rs : RandomSource)
  : number * RandomSource :=
  let (r, rs') := Math_random rs in
  (Num.floor (Num64.mul r max), rs').

(** [Duration.between(a, b)] *)
Definition between (a b : value) (rs : RandomSource)
  : result Duration * RandomSource :=
  match
    Check.verifyNotNullOrUndefined a ;;;
    Check.verifyNotNullOrUndefined b ;;;
    Check.verify (instanceof_Duration a) None ;;;
    Check.verify (instanceof_Duration b) None
  with
  | Err e => (Err e, rs)
  | Ok _ =>
      match a, b with
      | Dur a, Dur b =>
          if isForever a && isForever b then (Ok (forever tt), rs)
          else
            match effective_magnitude a, effective_magnitude b with
            | Ok left', Ok right' =>
                if Num.ltb left' right' then
                  let (n, rs') := randInt (Num64.sub right' left') rs in
                  (fromMilliseconds (Num64.add n left'), rs')
                else if Num.ltb right' left' then
                  let (n, rs') := randInt (Num64.sub left' right') rs in
                  (fromMilliseconds (Num64.add n right'), rs')
                else (Ok a, rs)
            | Err e, _ | _, Err e => (Err e, rs)
            end
      | _, _ => (Err (InvalidOperation None), rs)
      end
  end.

(** Instances obtainable from the public factories and operations, with
    any numbers as arguments and any samples in [0, 1). *)
Inductive reachable : Duration -> Prop :=
| reach_fromMilliseconds x d :
    fromMilliseconds x = Ok d -> reachable d
| reach_fromSeconds x d :
    fromSeconds x = Ok d -> reachable d
| reach_fromMinutes x d :
    fromMinutes x = Ok d -> reachable d
| reach_fromHours x d :
    fromHours x = Ok d -> reachable d
| reach_fromDays x d :
    fromDays x = Ok d -> reachable d
| reach_forever :
    reachable (forever tt)
| reach_add a b d :
    reachable a -> reachable b -> add a (Dur b) = Ok d -> reachable d
| reach_multiply a times d :
    reachable a -> multiply a times = Ok d -> reachable d
| reach_between a b rs d :
    reachable a -> reachable b -> valid_source rs ->
    fst (between (Dur a) (Dur b) rs) = Ok d -> reachable d.

End Rounded.

(** Every sample is a double in [0, 1), as [Math.random] guarantees. *)
Definition valid_double_source (rs : RandomSource) : Prop :=
  forall n : nat,
    0 <= samples rs n /\ samples rs n < 1 /\
    Num64.representable (samples rs n) = true.

(** What survives of the data-model invariant on doubles: a forever
    instance stores [Infinity], and the magnitude of any other instance is
    never negative. *)
Definition never_negative (d : Duration) : Prop :=
  if this_forever d then this_milliseconds d = PosInf
  else Num.ltb (this_milliseconds d) (Fin 0) = false.

(** Two instances with the same flag and [===] magnitudes. *)
Definition equivalent (d1 d2 : Duration) : bool :=
  Bool.eqb (this_forever d1) (this_forever d2) &&
  Num.eqb (this_milliseconds d1) (this_milliseconds d2).

(** A non-forever instance whose magnitude is a non-negative double. *)
Definition finite_double_duration (d : Duration) : bool :=
  negb (this_forever d) &&
  match this_milliseconds d with
  | Fin q => Qle_bool 0 q && Num64.representable q
  | _ => false
  end.

(** ** Facts about numbers *)

Lemma ltb_Fin (a b : Q) : Num.ltb (Fin a) (Fin b) = true <-> a < b.
Proof.
  simpl. rewrite Qlt_alt. destruct (a ?= b); intuition congruence.
Qed.

Lemma ltb_Fin_false (a b : Q) : Num.ltb (Fin a) (Fin b) = false <-> b <= a.
Proof.
  simpl. rewrite Qle_alt, <- (Qcompare_antisym a b).
  destruct (a ?= b); simpl; intuition congruence.
Qed.

Lemma eqb_Fin (a b : Q) : Num.eqb (Fin a) (Fin b) = true <-> a == b.
Proof. simpl. apply Qeq_bool_iff. Qed.

Lemma leb_Fin (a b : Q) : Num.leb (Fin a) (Fin b) = true <-> a <= b.
Proof.
  unfold Num.leb. rewrite orb_true_iff, ltb_Fin, eqb_Fin. split.
  - intros [H | H]; lra.
  - intros H. destruct (Qlt_le_dec a b) as [Hlt | Hge]; [left | right]; lra.
Qed.

(** A non-negative number is a non-negative rational or [Infinity]. *)
Lemma nonneg_cases (x : number) :
  Num.leb (Fin 0) x = true -> (exists q, x = Fin q /\ 0 <= q) \/ x = PosInf.
Proof.
  destruct x as [q | | |]; intros H; try discriminate.
  - left. exists q. split; [reflexivity | now apply leb_Fin].
  - now right.
Qed.

Lemma nonneg_not_negative (x : number) :
  Num.leb (Fin 0) x = true -> Num.ltb x (Fin 0) = false.
Proof.
  intros H. destruct (nonneg_cases x H) as [(q & -> & Hq) | ->].
  - now apply ltb_Fin_false.
  - reflexivity.
Qed.

Lemma nonneg_mul (x : number) (k : Q) :
  0 < k -> Num.leb (Fin 0) x = true ->
  Num.leb (Fin 0) (Num.mul x (Fin k)) = true.
Proof.
  intros Hk H. destruct (nonneg_cases x H) as [(q & -> & Hq) | ->].
  - simpl Num.mul. apply leb_Fin. nra.
  - simpl. apply Qgt_alt in Hk. now rewrite Hk.
Qed.

(** ** Concrete runs *)

(** The repository's test: [Duration.fromMilliseconds(10).toMilliseconds()]
    is 10. *)
Example test_fromMilliseconds_stores_value :
  (d <- fromMilliseconds (Fin 10) ;; toMilliseconds d) = Ok (Fin 10).
Proof. reflexivity. Qed.

Example run_fromSeconds_add :
  returns_number
    (a <- fromSeconds (Fin 1) ;; b <- fromSeconds (Fin 2) ;;
     c <- add a (Dur b) ;; toSeconds c)
    (Fin 3).
Proof. eexists. split; [reflexivity | reflexivity]. Qed.

Example run_multiply :
  returns_number
    (a <- fromSeconds (Fin 2) ;; b <- multiply a (Fin 3) ;; toSeconds b)
    (Fin 6).
Proof. eexists. split; [reflexivity | reflexivity]. Qed.

Example run_multiply_zero :
  (a <- fromSeconds (Fin 2) ;; multiply a (Fin 0)) = Err (InvalidArgument None).
Proof. reflexivity. Qed.

Example run_add_null :
  (a <- fromSeconds (Fin 2) ;; add a Null) = Err (InvalidArgument None).
Proof. reflexivity. Qed.

Example run_between_10_20 :
  fst (between (Dur (new_Duration (Fin 10) false))
               (Dur (new_Duration (Fin 20) false))
               (constant_source (7 # 10)))
  = Ok (new_Duration (Fin (7 + 10)) false).
Proof. reflexivity. Qed.

Example run_between_null (b : value) (rs : RandomSource) :
  between Null b rs = (Err (InvalidArgument None), rs).
Proof. reflexivity. Qed.

(** ** Conversion accessors *)

Section Accessors.

Variable d : Duration.

Lemma accessors_of_forever :
  this_forever d = true ->
  throws_InvalidOperation (toMilliseconds d) /\
  throws_InvalidOperation (toSeconds d) /\
  throws_InvalidOperation (toMinutes d) /\
  throws_InvalidOperation (toHours d) /\
  throws_InvalidOperation (toDays d).
Proof.
  intros H.
  unfold toDays, toHours, toMinutes, toSeconds, toMilliseconds.
  rewrite H. simpl. repeat split; eexists; reflexivity.
Qed.

Lemma accessors_of_finite :
  this_forever d = false ->
  toMilliseconds d = Ok (this_milliseconds d) /\
  toSeconds d = Ok (Num.div (this_milliseconds d) (Fin 1000)) /\
  toMinutes d =
    Ok (Num.div (Num.div (this_milliseconds d) (Fin 1000)) (Fin 60)) /\
  toHours d =
    Ok (Num.div (Num.div (Num.div (this_milliseconds d) (Fin 1000)) (Fin 60))
          (Fin 60)) /\
  toDays d =
    Ok (Num.div
          (Num.div (Num.div (Num.div (this_milliseconds d) (Fin 1000)) (Fin 60))
             (Fin 60))
          (Fin 24)).
Proof.
  intros H.
  unfold toDays, toHours, toMinutes, toSeconds, toMilliseconds.
  rewrite H. simpl. repeat split.
Qed.

End Accessors.

(** C6. On a duration whose forever flag is set, each of [toMilliseconds],
    [toSeconds], [toMinutes], [toHours] and [toDays] raises
    [InvalidOperation] while [isForever] returns [true]; this holds in
    particular for [Duration.forever()].  On a duration whose flag is not
    set, none of the five accessors raises. *)
Theorem accessors_fail_exactly_on_forever (d : Duration) :
  (this_forever d = true ->
     throws_InvalidOperation (toMilliseconds d) /\
     throws_InvalidOperation (toSeconds d) /\
     throws_InvalidOperation (toMinutes d) /\
     throws_InvalidOperation (toHours d) /\
     throws_InvalidOperation (toDays d) /\
     isForever d = true) /\
  (this_forever d = false ->
     returns (toMilliseconds d) /\ returns (toSeconds d) /\
     returns (toMinutes d) /\ returns (toHours d) /\ returns (toDays d)) /\
  this_forever (forever tt) = true.
Proof.
  split; [| split].
  - intros H.
    destruct (accessors_of_forever d H) as (H1 & H2 & H3 & H4 & H5).
    now repeat split.
  - intros H.
    destruct (accessors_of_finite d H) as (H1 & H2 & H3 & H4 & H5).
    repeat split; eexists; eassumption.
  - reflexivity.
Qed.

Lemma accessors_fail_exactly_on_forever_witness :
  (throws_InvalidOperation (toMilliseconds (forever tt)) /\
   throws_InvalidOperation (toSeconds (forever tt)) /\
   throws_InvalidOperation (toMinutes (forever tt)) /\
   throws_InvalidOperation (toHours (forever tt)) /\
   throws_InvalidOperation (toDays (forever tt)) /\
   isForever (forever tt) = true) /\
  (returns (toMilliseconds (new_Duration (Fin 1500) false)) /\
   returns (toSeconds (new_Duration (Fin 1500) false)) /\
   returns (toMinutes (new_Duration (Fin 1500) false)) /\
   returns (toHours (new_Duration (Fin 1500) false)) /\
   returns (toDays (new_Duration (Fin 1500) false))).
Proof.
  split.
  - apply (proj1 (accessors_fail_exactly_on_forever (forever tt))).
    reflexivity.
  - apply (proj1 (proj2 (accessors_fail_exactly_on_forever
                           (new_Duration (Fin 1500) false)))).
    reflexivity.
Defined.

(** ** Factories *)

Lemma verifyNotNegative_negative (x : number) (message : option string) :
  Num.ltb x (Fin 0) = true ->
  Check.verifyNotNegative x message = Err (InvalidArgument message).
Proof. intros H. unfold Check.verifyNotNegative. now rewrite H. Qed.

Lemma verifyNotNegative_nonneg (x : number) (message : option string) :
  Num.leb (Fin 0) x = true -> Check.verifyNotNegative x message = Ok tt.
Proof.
  intros H. unfold Check.verifyNotNegative.
  now rewrite (nonneg_not_negative x H).
Qed.

(** What each factory builds from a non-negative argument, with the
    multiplications in the order the code performs them. *)
Lemma factories_of_nonneg (x : number) :
  Num.leb (Fin 0) x = true ->
  fromMilliseconds x = Ok (new_Duration x false) /\
  fromSeconds x = Ok (new_Duration (Num.mul x (Fin 1000)) false) /\
  fromMinutes x =
    Ok (new_Duration (Num.mul (Num.mul x (Fin 60)) (Fin 1000)) false) /\
  fromHours x =
    Ok (new_Duration
          (Num.mul (Num.mul (Num.mul x (Fin 60)) (Fin 60)) (Fin 1000)) false) /\
  fromDays x =
    Ok (new_Duration
          (Num.mul (Num.mul (Num.mul (Num.mul x (Fin 24)) (Fin 60)) (Fin 60))
             (Fin 1000))
          false).
Proof.
  intros H.
  assert (H60 : forall y, Num.leb (Fin 0) y = true ->
                          Num.leb (Fin 0) (Num.mul y (Fin 60)) = true)
    by (intros y Hy; apply nonneg_mul; [reflexivity | exact Hy]).
  assert (H24 : Num.leb (Fin 0) (Num.mul x (Fin 24)) = true)
    by (apply nonneg_mul; [reflexivity | exact H]).
  assert (Hs : forall y, Num.leb (Fin 0) y = true ->
               fromSeconds y = Ok (new_Duration (Num.mul y (Fin 1000)) false)).
  { intros y Hy. unfold fromSeconds.
    now rewrite (verifyNotNegative_nonneg y _ Hy). }
  assert (Hm : forall y, Num.leb (Fin 0) y = true ->
               fromMinutes y = fromSeconds (Num.mul y (Fin 60))).
  { intros y Hy. unfold fromMinutes.
    now rewrite (verifyNotNegative_nonneg y _ Hy). }
  assert (Hh : forall y, Num.leb (Fin 0) y = true ->
               fromHours y = fromMinutes (Num.mul y (Fin 60))).
  { intros y Hy. unfold fromHours.
    now rewrite (verifyNotNegative_nonneg y _ Hy). }
  repeat split.
  - unfold fromMilliseconds. now rewrite (verifyNotNegative_nonneg x _ H).
  - now apply Hs.
  - rewrite Hm, Hs; auto.
  - rewrite Hh, Hm, Hs; auto.
  - unfold fromDays. rewrite (verifyNotNegative_nonneg x _ H). simpl bind.
    rewrite Hh, Hm, Hs; auto.
Qed.

(** C5. A negative argument makes each of [fromMilliseconds], [fromSeconds],
    [fromMinutes], [fromHours] and [fromDays] raise [InvalidArgument]; a
    non-negative argument makes none of them raise. *)
Theorem factories_reject_exactly_negative (x : number) :
  (Num.ltb x (Fin 0) = true ->
     throws_InvalidArgument (fromMilliseconds x) /\
     throws_InvalidArgument (fromSeconds x) /\
     throws_InvalidArgument (fromMinutes x) /\
     throws_InvalidArgument (fromHours x) /\
     throws_InvalidArgument (fromDays x)) /\
  (Num.leb (Fin 0) x = true ->
     returns (fromMilliseconds x) /\ returns (fromSeconds x) /\
     returns (fromMinutes x) /\ returns (fromHours x) /\
     returns (fromDays x)).
Proof.
  split; intros H.
  - unfold fromDays, fromHours, fromMinutes, fromSeconds, fromMilliseconds.
    rewrite (verifyNotNegative_negative x _ H). simpl.
    repeat split; eexists; reflexivity.
  - destruct (factories_of_nonneg x H) as (H1 & H2 & H3 & H4 & H5).
    repeat split; eexists; eassumption.
Qed.

Lemma factories_reject_exactly_negative_witness :
  (throws_InvalidArgument (fromMilliseconds (Fin (-1))) /\
   throws_InvalidArgument (fromSeconds (Fin (-1))) /\
   throws_InvalidArgument (fromMinutes (Fin (-1))) /\
   throws_InvalidArgument (fromHours (Fin (-1))) /\
   throws_InvalidArgument (fromDays (Fin (-1)))) /\
  (returns (fromMilliseconds (Fin (3 # 2))) /\
   returns (fromSeconds (Fin (3 # 2))) /\
   returns (fromMinutes (Fin (3 # 2))) /\
   returns (fromHours (Fin (3 # 2))) /\
   returns (fromDays (Fin (3 # 2)))).
Proof.
  split.
  - apply (proj1 (factories_reject_exactly_negative (Fin (-1)))).
    reflexivity.
  - apply (proj2 (factories_reject_exactly_negative (Fin (3 # 2)))).
    reflexivity.
Defined.



(** ** Arithmetic: [multiply] and [add] *)

Lemma positive_cases (t : number) :
  Num.ltb (Fin 0) t = true -> (exists q, t = Fin q /\ 0 < q) \/ t = PosInf.
Proof.
  destruct t as [q | | |]; intros H; try discriminate.
  - left. exists q. split; [reflexivity | now apply ltb_Fin].
  - now right.
Qed.

Lemma mul_PosInf_positive (t : number) :
  Num.ltb (Fin 0) t = true -> Num.mul PosInf t = PosInf.
Proof.
  intros H. destruct (positive_cases t H) as [(q & -> & Hq) | ->].
  - simpl. apply Qgt_alt in Hq. now rewrite Hq.
  - reflexivity.
Qed.

(** C7. [d.multiply(factor)] raises [InvalidArgument] if and only if
    [factor] is not strictly positive, which covers [multiply(0)] and
    [multiply(-1)]; otherwise it returns a duration whose magnitude is the
    magnitude of [d] times [factor] and whose forever flag is that of [d]. *)
Theorem multiply_scales_or_rejects (d : Duration) (factor : number) :
  constructed d ->
  (throws_InvalidArgument (multiply d factor) <->
     Num.ltb (Fin 0) factor = false) /\
  (Num.ltb (Fin 0) factor = true ->
     exists r, multiply d factor = Ok r /\
               this_milliseconds r = Num.mul (this_milliseconds d) factor /\
               this_forever r = this_forever d) /\
  throws_InvalidArgument (multiply d (Fin 0)) /\
  throws_InvalidArgument (multiply d (Fin (-1))).
Proof.
  intros Hd. unfold multiply, Check.verifyPositive.
  split; [| split; [| split; eexists; reflexivity]].
  - destruct (Num.ltb (Fin 0) factor); simpl; split.
    + intros [m Hm]. discriminate.
    + discriminate.
    + reflexivity.
    + intros _. eexists. reflexivity.
  - intros Hpos. rewrite Hpos. simpl. eexists.
    split; [reflexivity |]. split; [| reflexivity].
    unfold new_Duration. simpl.
    destruct (this_forever d) eqn:Hf; [| reflexivity].
    rewrite (Hd Hf). symmetry. now apply mul_PosInf_positive.
Qed.

Lemma multiply_scales_or_rejects_witness :
  constructed (new_Duration (Fin 2000) false) /\
  (throws_InvalidArgument (multiply (new_Duration (Fin 2000) false) (Fin 3)) <->
     Num.ltb (Fin 0) (Fin 3) = false) /\
  (exists r, multiply (new_Duration (Fin 2000) false) (Fin 3) = Ok r /\
             this_milliseconds r =
               Num.mul (this_milliseconds (new_Duration (Fin 2000) false))
                 (Fin 3) /\
             this_forever r = this_forever (new_Duration (Fin 2000) false)) /\
  throws_InvalidArgument (multiply (new_Duration (Fin 2000) false) (Fin 0)) /\
  throws_InvalidArgument (multiply (new_Duration (Fin 2000) false) (Fin (-1))).
Proof.
  assert (Hc : constructed (new_Duration (Fin 2000) false))
    by (unfold constructed; simpl; discriminate).
  destruct (multiply_scales_or_rejects
              (new_Duration (Fin 2000) false) (Fin 3) Hc)
    as (Hiff & Hpos & Hzero & Hneg).
  split; [exact Hc |]. split; [exact Hiff |].
  split; [apply Hpos; reflexivity |]. split; [exact Hzero | exact Hneg].
Defined.

(** [x.add(y)] when [y] is a finite duration: the magnitudes are summed and
    the flags or-ed. *)
Lemma add_of_finite_argument (x y : Duration) :
  constructed x -> invariant y -> this_forever y = false ->
  exists r, add x (Dur y) = Ok r /\
            this_milliseconds r =
              Num.add (this_milliseconds x) (this_milliseconds y) /\
            this_forever r = this_forever x || this_forever y.
Proof.
  intros Hx Hinv Hy. unfold invariant in Hinv. rewrite Hy in Hinv.
  destruct Hinv as (q & Hq & _).
  unfold add, toMilliseconds. rewrite Hy. simpl.
  eexists. split; [reflexivity |]. split; [| reflexivity].
  unfold new_Duration. simpl. rewrite orb_false_r.
  destruct (this_forever x) eqn:Hf; [| reflexivity].
  rewrite (Hx Hf), Hq. reflexivity.
Qed.

(** [x.add(y)] when [y] is forever: [y.toMilliseconds()] raises before the
    flags are or-ed. *)
Lemma add_of_forever_argument (x y : Duration) :
  this_forever y = true ->
  add x (Dur y) =
    Err (InvalidOperation (Some "Can't convert forever to milliseconds"%string)).
Proof.
  intros Hy. unfold add, toMilliseconds. rewrite Hy. reflexivity.
Qed.

(** C1, at the failing input.  [Duration.fromSeconds(1).add(Duration.forever())]
    does not return a forever duration: it raises [InvalidOperation], although
    the forever flag of the sum is written as the or of both flags. *)
Theorem add_forever_on_the_right_raises :
  exists x,
    fromSeconds (Fin 1) = Ok x /\
    add x (Dur (forever tt)) =
      Err (InvalidOperation
             (Some "Can't convert forever to milliseconds"%string)) /\
    this_forever x || this_forever (forever tt) = true.
Proof.
  eexists. split; [reflexivity |]. split; reflexivity.
Qed.

(** C10. For a non-forever duration [d], [Duration.forever().add(d)] returns
    a duration with [isForever() == true], whereas [d.add(Duration.forever())]
    raises the error of [toMilliseconds] on the forever argument. *)
Theorem add_is_asymmetric_on_forever (d : Duration) :
  this_forever d = false ->
  (exists r, add (forever tt) (Dur d) = Ok r /\ isForever r = true) /\
  (exists e, toMilliseconds (forever tt) = Err e /\
             add d (Dur (forever tt)) = Err e).
Proof.
  intros Hd. split.
  - unfold add, toMilliseconds. rewrite Hd. simpl.
    eexists. split; reflexivity.
  - eexists. split; [reflexivity |]. now apply add_of_forever_argument.
Qed.

Lemma add_is_asymmetric_on_forever_witness :
  (exists r, add (forever tt) (Dur (new_Duration (Fin 1000) false)) = Ok r /\
             isForever r = true) /\
  (exists e, toMilliseconds (forever tt) = Err e /\
             add (new_Duration (Fin 1000) false) (Dur (forever tt)) = Err e).
Proof.
  apply (add_is_asymmetric_on_forever (new_Duration (Fin 1000) false)).
  reflexivity.
Defined.

(** ** [between] *)

Lemma between_of_durations (a b : Duration) (rs : RandomSource) :
  between (Dur a) (Dur b) rs =
    if isForever a && isForever b then (Ok (forever tt), rs)
    else
      match effective_magnitude a, effective_magnitude b with
      | Ok l, Ok r =>
          if Num.ltb l r then
            (fromMilliseconds (Num.add (fst (randInt (Num.sub r l) rs)) l),
             snd (randInt (Num.sub r l) rs))
          else if Num.ltb r l then
            (fromMilliseconds (Num.add (fst (randInt (Num.sub l r) rs)) r),
             snd (randInt (Num.sub l r) rs))
          else (Ok a, rs)
      | Err e, _ | _, Err e => (Err e, rs)
      end.
Proof.
  unfold between. simpl.
  destruct (isForever a && isForever b); [reflexivity |].
  destruct (effective_magnitude a) as [l | e]; [| reflexivity].
  destruct (effective_magnitude b) as [r | e]; [| reflexivity].
  destruct (Num.ltb l r); [reflexivity |].
  destruct (Num.ltb r l); reflexivity.
Qed.

Lemma effective_magnitude_finite (d : Duration) :
  this_forever d = false -> effective_magnitude d = Ok (this_milliseconds d).
Proof.
  intros H. unfold effective_magnitude, isForever, toMilliseconds.
  now rewrite H.
Qed.

Lemma effective_magnitude_forever (d : Duration) :
  this_forever d = true -> effective_magnitude d = Ok Num.MAX_VALUE.
Proof.
  intros H. unfold effective_magnitude, isForever. now rewrite H.
Qed.

(** C9. When both arguments are forever, [between] returns
    [Duration.forever()], whose [isForever()] is [true], and leaves the random
    source untouched. *)
Theorem between_two_forever (a b : Duration) (rs : RandomSource) :
  this_forever a = true -> this_forever b = true ->
  between (Dur a) (Dur b) rs = (Ok (forever tt), rs) /\
  isForever (forever tt) = true.
Proof.
  intros Ha Hb. split; [| reflexivity].
  rewrite between_of_durations. unfold isForever. now rewrite Ha, Hb.
Qed.

Lemma between_two_forever_witness :
  between (Dur (forever tt)) (Dur (forever tt)) (constant_source (1 # 2)) =
    (Ok (forever tt), constant_source (1 # 2)) /\
  isForever (forever tt) = true.
Proof.
  apply (between_two_forever (forever tt) (forever tt)); reflexivity.
Defined.

Lemma eqb_not_less (l r : number) :
  Num.eqb l r = true -> Num.ltb l r = false /\ Num.ltb r l = false.
Proof.
  destruct l as [a | | |], r as [b | | |]; try discriminate; intros H.
  - apply eqb_Fin in H. split; apply ltb_Fin_false; lra.
  - split; reflexivity.
  - split; reflexivity.
Qed.

(** When neither effective magnitude is below the other, [between] hands
    back its first argument. *)
Lemma between_neither_less (a b : Duration) (l r : number) (rs : RandomSource) :
  isForever a && isForever b = false ->
  effective_magnitude a = Ok l -> effective_magnitude b = Ok r ->
  Num.ltb l r = false -> Num.ltb r l = false ->
  between (Dur a) (Dur b) rs = (Ok a, rs).
Proof.
  intros Hff Hl Hr Hlr Hrl.
  rewrite between_of_durations, Hff, Hl, Hr, Hlr, Hrl. reflexivity.
Qed.

(** C8. When the effective magnitudes of [a] and [b] are equal and the two
    are not both forever, [between(a, b)] returns [a] itself (so a duration
    of the magnitude of [a]) and leaves the random source untouched. *)
Theorem between_equal_returns_first
  (a b : Duration) (l r : number) (rs : RandomSource) :
  isForever a && isForever b = false ->
  effective_magnitude a = Ok l -> effective_magnitude b = Ok r ->
  Num.eqb l r = true ->
  between (Dur a) (Dur b) rs = (Ok a, rs).
Proof.
  intros Hff Hl Hr Heq. destruct (eqb_not_less l r Heq) as [Hlr Hrl].
  now apply (between_neither_less a b l r).
Qed.

Lemma between_equal_returns_first_witness :
  between (Dur (new_Duration (Fin 5) false))
          (Dur (new_Duration (Fin (10 # 2)) false))
          (constant_source (1 # 2))
  = (Ok (new_Duration (Fin 5) false), constant_source (1 # 2)).
Proof.
  apply (between_equal_returns_first
           (new_Duration (Fin 5) false) (new_Duration (Fin (10 # 2)) false)
           (Fin 5) (Fin (10 # 2)));
    reflexivity.
Defined.

(** [between(a, a)] for a non-forever [a] whose magnitude is a number. *)
Corollary between_self (a : Duration) (rs : RandomSource) :
  this_forever a = false ->
  Num.eqb (this_milliseconds a) (this_milliseconds a) = true ->
  between (Dur a) (Dur a) rs = (Ok a, rs).
Proof.
  intros Ha Heq. destruct (eqb_not_less _ _ Heq) as [Hlt _].
  apply (between_neither_less a a (this_milliseconds a) (this_milliseconds a));
    auto using effective_magnitude_finite.
  unfold isForever. now rewrite Ha.
Qed.

Lemma Qmin_Qmax_of_lt (x y : Q) : x < y -> Qmin x y = x /\ Qmax x y = y.
Proof.
  intros H.
  unfold Qmin, Qmax, GenericMinMax.gmin, GenericMinMax.gmax.
  now rewrite (proj1 (Qlt_alt x y) H).
Qed.

Lemma Qmin_Qmax_of_gt (x y : Q) : y < x -> Qmin x y = y /\ Qmax x y = x.
Proof.
  intros H.
  unfold Qmin, Qmax, GenericMinMax.gmin, GenericMinMax.gmax.
  now rewrite (proj1 (Qgt_alt x y) H).
Qed.

Lemma fromMilliseconds_nonneg (v : Q) :
  0 <= v -> fromMilliseconds (Fin v) = Ok (new_Duration (Fin v) false).
Proof.
  intros H. unfold fromMilliseconds.
  rewrite verifyNotNegative_nonneg; [reflexivity | now apply leb_Fin].
Qed.

(** C3, as stated, fails: [Duration.fromMilliseconds(Infinity)] is reachable,
    is not forever, and its magnitude is not finite. *)
Lemma reachable_breaks_invariant :
  ~ (forall d : Duration, reachable d -> invariant d).
Proof.
  intros H.
  assert (Hr : reachable (new_Duration PosInf false))
    by (apply (reach_fromMilliseconds _ PosInf); [exact I | reflexivity]).
  destruct (H _ Hr) as (q & Hq & _). discriminate Hq.
Qed.

(** Scaling by a positive constant keeps the sign test of the factories. *)
Lemma negative_mul (x : number) (k : Q) :
  0 < k -> Num.ltb (Num.mul x (Fin k)) (Fin 0) = Num.ltb x (Fin 0).
Proof.
  intros Hk. destruct x as [q | | |].
  - cbn [Num.mul]. destruct (Num.ltb (Fin q) (Fin 0)) eqn:H.
    + apply ltb_Fin in H. apply ltb_Fin. nra.
    + apply ltb_Fin_false in H. apply ltb_Fin_false. nra.
  - unfold Num.mul, Num.sign. now rewrite (proj1 (Qgt_alt k 0) Hk).
  - unfold Num.mul, Num.sign. now rewrite (proj1 (Qgt_alt k 0) Hk).
  - reflexivity.
Qed.

(** X2. The larger-unit factories agree with the next smaller one on every
    number, errors included: [fromMinutes(x)] is [fromSeconds(x * 60)],
    [fromHours(x)] is [fromMinutes(x * 60)] and [fromDays(x)] is
    [fromHours(x * 24)]; their own sign check never changes the outcome. *)
Theorem factories_delegate (x : number) :
  fromMinutes x = fromSeconds (Num.mul x (Fin 60)) /\
  fromHours x = fromMinutes (Num.mul x (Fin 60)) /\
  fromDays x = fromHours (Num.mul x (Fin 24)).
Proof.
  assert (Hs : forall y k, 0 < k -> Num.ltb y (Fin 0) = true ->
               fromSeconds (Num.mul y (Fin k)) =
                 Err (InvalidArgument must_be_positive)).
  { intros y k Hk Hy. unfold fromSeconds, Check.verifyNotNegative.
    now rewrite (negative_mul y k Hk), Hy. }
  assert (Hm : forall y k, 0 < k -> Num.ltb y (Fin 0) = true ->
               fromMinutes (Num.mul y (Fin k)) =
                 Err (InvalidArgument must_be_positive)).
  { intros y k Hk Hy. unfold fromMinutes, Check.verifyNotNegative.
    now rewrite (negative_mul y k Hk), Hy. }
  assert (Hh : forall y k, 0 < k -> Num.ltb y (Fin 0) = true ->
               fromHours (Num.mul y (Fin k)) =
                 Err (InvalidArgument must_be_positive)).
  { intros y k Hk Hy. unfold fromHours, Check.verifyNotNegative.
    now rewrite (negative_mul y k Hk), Hy. }
  destruct (Num.ltb x (Fin 0)) eqn:Hx.
  - rewrite Hs, Hm, Hh by (reflexivity || exact Hx).
    unfold fromDays, fromHours, fromMinutes, Check.verifyNotNegative.
    rewrite Hx. repeat split.
  - unfold fromDays, fromHours at 1, fromMinutes at 1,
      Check.verifyNotNegative.
    rewrite Hx. repeat split.
Qed.

(** ** More on [between] and on argument checks *)

Lemma ltb_irrefl (x : number) : Num.ltb x x = false.
Proof.
  destruct x as [q | | |]; try reflexivity.
  apply ltb_Fin_false. apply Qle_refl.
Qed.

Lemma ltb_asym (l r : number) : Num.ltb l r = true -> Num.ltb r l = false.
Proof.
  destruct l as [a | | |], r as [b | | |];
    try discriminate; try reflexivity.
  intros H. apply ltb_Fin in H. apply ltb_Fin_false. lra.
Qed.

Lemma effective_magnitude_total (d : Duration) :
  effective_magnitude d =
    Ok (if this_forever d then Num.MAX_VALUE else this_milliseconds d).
Proof.
  destruct (this_forever d) eqn:H.
  - now apply effective_magnitude_forever.
  - now apply effective_magnitude_finite.
Qed.

(** X8. [between] does not depend on the order of its arguments when one
    effective magnitude is below the other: the same sample gives the same
    duration and the same state of the random source. *)
Theorem between_symmetric (a b : Duration) (l r : number) (rs : RandomSource) :
  effective_magnitude a = Ok l -> effective_magnitude b = Ok r ->
  Num.ltb l r || Num.ltb r l = true ->
  between (Dur a) (Dur b) rs = between (Dur b) (Dur a) rs.
Proof.
  intros Hl Hr Hne. rewrite !between_of_durations.
  rewrite (andb_comm (isForever b)).
  destruct (isForever a && isForever b); [reflexivity |].
  rewrite Hl, Hr.
  destruct (Num.ltb l r) eqn:Hlr.
  - now rewrite (ltb_asym l r Hlr).
  - cbn [orb] in Hne. now rewrite Hne.
Qed.

Lemma between_symmetric_witness :
  between (Dur (mkDuration (Fin 10) false)) (Dur (mkDuration (Fin 20) false))
          (constant_source (7 # 10))
  = between (Dur (mkDuration (Fin 20) false)) (Dur (mkDuration (Fin 10) false))
            (constant_source (7 # 10)).
Proof.
  apply (between_symmetric
           (mkDuration (Fin 10) false) (mkDuration (Fin 20) false)
           (Fin 10) (Fin 20));
    reflexivity.
Defined.

(** X9. [between] never alters the samples of the random source and draws
    at most once: exactly one sample when one effective magnitude is below
    the other, none otherwise. *)
Theorem between_draws_at_most_once (a b : Duration) (rs : RandomSource) :
  exists l r,
    effective_magnitude a = Ok l /\ effective_magnitude b = Ok r /\
    samples (snd (between (Dur a) (Dur b) rs)) = samples rs /\
    consumed (snd (between (Dur a) (Dur b) rs)) =
      if Num.ltb l r || Num.ltb r l then S (consumed rs) else consumed rs.
Proof.
  exists (if this_forever a then Num.MAX_VALUE else this_milliseconds a),
         (if this_forever b then Num.MAX_VALUE else this_milliseconds b).
  split; [apply effective_magnitude_total |].
  split; [apply effective_magnitude_total |].
  rewrite between_of_durations, !effective_magnitude_total.
  unfold isForever.
  destruct (this_forever a) eqn:Ha, (this_forever b) eqn:Hb; cbn [andb].
  - rewrite ltb_irrefl. split; reflexivity.
  - destruct (Num.ltb Num.MAX_VALUE (this_milliseconds b));
      [split; reflexivity |]; cbn [orb].
    destruct (Num.ltb (this_milliseconds b) Num.MAX_VALUE); split; reflexivity.
  - destruct (Num.ltb (this_milliseconds a) Num.MAX_VALUE);
      [split; reflexivity |]; cbn [orb].
    destruct (Num.ltb Num.MAX_VALUE (this_milliseconds a)); split; reflexivity.
  - destruct (Num.ltb (this_milliseconds a) (this_milliseconds b));
      [split; reflexivity |]; cbn [orb].
    destruct (Num.ltb (this_milliseconds b) (this_milliseconds a));
      split; reflexivity.
Qed.

(** X10. [add] and [between] return nothing for an argument that is not a
    [Duration], and [between] then leaves the random source untouched.  A
    [null] or [undefined] argument is reported as [InvalidArgument], in
    [between] even when the other argument is not a [Duration] either. *)
Theorem non_durations_are_rejected
  (this : Duration) (a b : value) (rs : RandomSource) :
  (instanceof_Duration a = false -> exists e, add this a = Err e) /\
  (is_null_or_undefined a = true -> add this a = Err (InvalidArgument None)) /\
  (instanceof_Duration a && instanceof_Duration b = false ->
     exists e, between a b rs = (Err e, rs)) /\
  (is_null_or_undefined a || is_null_or_undefined b = true ->
     between a b rs = (Err (InvalidArgument None), rs)).
Proof.
  repeat split.
  - destruct a; try discriminate; intros _; eexists; reflexivity.
  - destruct a; try discriminate; reflexivity.
  - destruct a, b; try discriminate; intros _; eexists; reflexivity.
  - destruct a, b; try discriminate; reflexivity.
Qed.

Lemma non_durations_are_rejected_witness :
  (exists e, add (mkDuration (Fin 5) false) NotDuration = Err e) /\
  add (mkDuration (Fin 5) false) Undefined = Err (InvalidArgument None) /\
  (exists e, between (Dur (mkDuration (Fin 5) false)) NotDuration
               (constant_source (1 # 2))
             = (Err e, constant_source (1 # 2))) /\
  between NotDuration Null (constant_source (1 # 2))
  = (Err (InvalidArgument None), constant_source (1 # 2)).
Proof.
  split; [| split; [| split]].
  - apply (proj1 (non_durations_are_rejected
                    (mkDuration (Fin 5) false) NotDuration Null
                    (constant_source (1 # 2)))).
    reflexivity.
  - apply (proj1 (proj2 (non_durations_are_rejected
                           (mkDuration (Fin 5) false) Undefined Null
                           (constant_source (1 # 2))))).
    reflexivity.
  - apply (proj1 (proj2 (proj2 (non_durations_are_rejected
                                  (mkDuration (Fin 5) false)
                                  (Dur (mkDuration (Fin 5) false)) NotDuration
                                  (constant_source (1 # 2)))))).
    reflexivity.
  - apply (proj2 (proj2 (proj2 (non_durations_are_rejected
                                  (mkDuration (Fin 5) false)
                                  NotDuration Null
                                  (constant_source (1 # 2)))))).
    reflexivity.
Defined.


(** ** Rounding to binary64 *)

Lemma pow2_pos e : 0 < Num64.pow2 e.
Proof. apply Qpower_0_lt. reflexivity. Qed.

Lemma pow2_add a b : Num64.pow2 (a + b) == Num64.pow2 a * Num64.pow2 b.
Proof. apply Qpower_plus. discriminate. Qed.

Lemma pow2_succ a : Num64.pow2 (a + 1) == 2 * Num64.pow2 a.
Proof. rewrite pow2_add. change (Num64.pow2 1) with 2. ring. Qed.

Lemma pow2_pred a : Num64.pow2 (a - 1) == Num64.pow2 a * (1 # 2).
Proof.
  assert (H := pow2_succ (a - 1)). replace (a - 1 + 1)%Z with a in H by ring.
  rewrite H. ring.
Qed.

Lemma pow2_le a b : (a <= b)%Z -> Num64.pow2 a <= Num64.pow2 b.
Proof. intros H. apply Qpower_le_compat_l; [exact H | discriminate]. Qed.

Lemma pow2_lt a b : (a < b)%Z -> Num64.pow2 a < Num64.pow2 b.
Proof. intros H. apply Qpower_lt_compat_l; [exact H | reflexivity]. Qed.

Lemma pow2_Z n : (0 <= n)%Z -> inject_Z (2 ^ n) == Num64.pow2 n.
Proof. intros H. apply Zpower_Qpower. exact H. Qed.

Lemma pow2_sub a b : Num64.pow2 (a - b) * Num64.pow2 b == Num64.pow2 a.
Proof. rewrite <- pow2_add. replace (a - b + b)%Z with a by ring. reflexivity. Qed.

Lemma quotient_bounds (q N D A B P : Q) :
  q * D == N -> A <= N -> N < 2 * A -> B <= D -> D < 2 * B ->
  P * B == A -> 0 < P -> 0 < B ->
  P * (1 # 2) < q /\ q < 2 * P.
Proof.
  intros Hq Ha1 Ha2 Hb1 Hb2 HP HPpos HBpos.
  assert (HD : 0 < D) by lra.
  assert (HPD : P * D < P * (2 * B))
    by (apply (proj2 (Qmult_lt_l D (2 * B) P HPpos)); lra).
  assert (HPB : P * B <= P * D)
    by (apply (proj2 (Qmult_le_l B D P HPpos)); lra).
  split.
  - apply (proj1 (Qmult_lt_r (P * (1 # 2)) q D HD)). lra.
  - apply (proj1 (Qmult_lt_r q (2 * P) D HD)). lra.
Qed.

(** [ilog2 q] is the exponent of the power of two at or below [q]. *)
Lemma ilog2_spec q : 0 < q -> Num64.pow2 (Num64.ilog2 q) <= q /\ q < Num64.pow2 (Num64.ilog2 q + 1).
Proof.
  intros Hq. destruct q as [n d].
  assert (Hn : (0 < n)%Z) by (unfold Qlt in Hq; simpl in Hq; lia).
  unfold Num64.ilog2. cbn [Qnum Qden].
  set (a := Z.log2 n). set (b := Z.log2 (Zpos d)).
  destruct (Z.log2_spec n Hn) as [Ha1 Ha2].
  destruct (Z.log2_spec (Zpos d) (Pos2Z.is_pos d)) as [Hb1 Hb2].
  fold a in Ha1, Ha2. fold b in Hb1, Hb2.
  assert (Ha0 : (0 <= a)%Z) by apply Z.log2_nonneg.
  assert (Hb0 : (0 <= b)%Z) by apply Z.log2_nonneg.
  rewrite Zle_Qle, pow2_Z in Ha1, Hb1 by assumption.
  rewrite Zlt_Qlt, pow2_Z in Ha2, Hb2 by lia.
  replace (Z.succ a) with (a + 1)%Z in Ha2 by lia.
  replace (Z.succ b) with (b + 1)%Z in Hb2 by lia.
  rewrite pow2_succ in Ha2, Hb2.
  assert (Hq' : (n # d) * inject_Z (Zpos d) == inject_Z n).
  { rewrite (Qmake_Qdiv n d). field. discriminate. }
  destruct (quotient_bounds _ _ _ _ _ _ Hq' Ha1 Ha2 Hb1 Hb2
              (pow2_sub a b) (pow2_pos (a - b)) (pow2_pos b)) as [Hlo Hup].
  destruct (Qle_bool (Num64.pow2 (a - b)) (n # d)) eqn:Hc.
  - apply Qle_bool_iff in Hc. split; [exact Hc |].
    rewrite pow2_succ. exact Hup.
  - assert (Hc' : n # d < Num64.pow2 (a - b)).
    { destruct (Qlt_le_dec (n # d) (Num64.pow2 (a - b))) as [H | H]; [exact H |].
      apply Qle_bool_iff in H. congruence. }
    split.
    + rewrite pow2_pred. lra.
    + replace (a - b - 1 + 1)%Z with (a - b)%Z by ring. exact Hc'.
Qed.

Lemma rne_cases (x : Q) :
  (Num64.rne x = Qfloor x /\ x - inject_Z (Qfloor x) <= 1 # 2) \/
  (Num64.rne x = (Qfloor x + 1)%Z /\ 1 # 2 <= x - inject_Z (Qfloor x)).
Proof.
  unfold Num64.rne.
  destruct (Qcompare (x - inject_Z (Qfloor x)) (1 # 2)) eqn:Hc.
  - apply Qeq_alt in Hc.
    destruct (Z.even (Qfloor x)); [left | right]; split; try reflexivity;
      rewrite Hc; apply Qle_refl.
  - apply Qlt_alt in Hc. left. split; [reflexivity | lra].
  - apply Qgt_alt in Hc. right. split; [reflexivity | lra].
Qed.

(** [rne x] is an integer nearest to [x]. *)
Lemma rne_nearest (x : Q) (z : Z) :
  (inject_Z z <= x ->
     inject_Z z <= inject_Z (Num64.rne x) /\ inject_Z (Num64.rne x) <= 2 * x - inject_Z z) /\
  (x <= inject_Z z ->
     2 * x - inject_Z z <= inject_Z (Num64.rne x) /\ inject_Z (Num64.rne x) <= inject_Z z).
Proof.
  assert (Hf1 := Qfloor_le x). assert (Hf2 := Qlt_floor x).
  rewrite inject_Z_plus in Hf2. change (inject_Z 1) with 1 in Hf2.
  assert (Hz : (z <= Qfloor x)%Z \/ (Qfloor x + 1 <= z)%Z) by lia.
  assert (Hz' : inject_Z z <= inject_Z (Qfloor x) \/
                inject_Z (Qfloor x) + 1 <= inject_Z z).
  { destruct Hz as [Hz | Hz]; [left | right].
    - now rewrite <- Zle_Qle.
    - rewrite Zle_Qle, inject_Z_plus in Hz. exact Hz. }
  clear Hz.
  destruct (rne_cases x) as [[-> Hr] | [-> Hr]].
  - split; intros H; destruct Hz' as [Hz | Hz]; lra.
  - rewrite inject_Z_plus. change (inject_Z 1) with 1.
    split; intros H; destruct Hz' as [Hz | Hz]; lra.
Qed.

Lemma scaled_back (q : Q) (e : Z) : q * Num64.pow2 (- e) * Num64.pow2 e == q.
Proof.
  rewrite <- Qmult_assoc, <- pow2_add.
  replace (- e + e)%Z with 0%Z by ring. change (Num64.pow2 0) with 1. ring.
Qed.

(** Among the multiples of [2^e], [Num64.round_at e q] is nearest to [q]. *)
Lemma round_at_nearest (e : Z) (q : Q) (z : Z) :
  let f := inject_Z z * Num64.pow2 e in
  (f <= q -> f <= Num64.round_at e q /\ Num64.round_at e q <= 2 * q - f) /\
  (q <= f -> 2 * q - f <= Num64.round_at e q /\ Num64.round_at e q <= f).
Proof.
  intros f. unfold Num64.round_at. subst f.
  set (x := q * Num64.pow2 (- e)).
  assert (He := pow2_pos e). assert (Hq := scaled_back q e). fold x in Hq.
  destruct (rne_nearest x z) as [H1 H2].
  set (R := inject_Z (Num64.rne x)) in *. set (Zq := inject_Z z) in *.
  set (E := Num64.pow2 e) in *. clearbody R Zq E x.
  split; intros H.
  - assert (Hx : Zq <= x).
    { apply (proj1 (Qmult_le_r Zq x E He)). lra. }
    destruct (H1 Hx) as [Ha Hb].
    apply (proj2 (Qmult_le_r _ _ E He)) in Ha, Hb. lra.
  - assert (Hx : x <= Zq).
    { apply (proj1 (Qmult_le_r x Zq E He)). lra. }
    destruct (H2 Hx) as [Ha Hb].
    apply (proj2 (Qmult_le_r _ _ E He)) in Ha, Hb. lra.
Qed.

Lemma rnd_nearest_multiple (q : Q) (z : Z) :
  let f := inject_Z z * Num64.pow2 (Num64.cexp (Qred q)) in
  (f <= q -> f <= Num64.rnd q /\ Num64.rnd q <= 2 * q - f) /\
  (q <= f -> 2 * q - f <= Num64.rnd q /\ Num64.rnd q <= f).
Proof.
  intros f. unfold Num64.rnd.
  destruct (round_at_nearest (Num64.cexp (Qred q)) (Qred q) z) as [H1 H2].
  fold f in H1, H2. assert (Hr := Qred_correct q).
  set (R := Num64.round_at (Num64.cexp (Qred q)) (Qred q)) in *.
  set (q' := Qred q) in *. clearbody R f q'.
  split; intros H.
  - destruct H1 as [Ha Hb]; lra.
  - destruct H2 as [Ha Hb]; lra.
Qed.

(** Rounding depends on the value of a rational only, not on the fraction
    that writes it. *)
Lemma rnd_compat (p q : Q) : p == q -> Num64.rnd p = Num64.rnd q.
Proof. intros H. unfold Num64.rnd. now rewrite (Qred_complete p q H). Qed.

Lemma rnd_nonneg (q : Q) : 0 <= q -> 0 <= Num64.rnd q.
Proof.
  intros Hq. destruct (rnd_nearest_multiple q 0) as [H _].
  cbv zeta in H. change (inject_Z 0) with 0 in H.
  assert (H0 : 0 * Num64.pow2 (Num64.cexp (Qred q)) == 0) by ring.
  rewrite H0 in H. apply H. exact Hq.
Qed.

Lemma rnd_zero (q : Q) : q == 0 -> Num64.rnd q == 0.
Proof.
  intros Hq. destruct (rnd_nearest_multiple q 0) as [H _].
  cbv zeta in H. change (inject_Z 0) with 0 in H.
  assert (H0 : 0 * Num64.pow2 (Num64.cexp (Qred q)) == 0) by ring.
  rewrite H0 in H. destruct H as [Ha Hb]; lra.
Qed.

(** A positive [q] has fewer than 53 bits above its last-bit exponent, and
    a normal one has exactly 53. *)
Lemma cexp_spec (q : Q) :
  0 < q ->
  (-1074 <= Num64.cexp (Qred q))%Z /\ q < Num64.pow2 (Num64.cexp (Qred q) + 53) /\
  ((-1074 < Num64.cexp (Qred q))%Z -> Num64.pow2 (Num64.cexp (Qred q) + 52) <= q).
Proof.
  intros Hq. assert (Hq' : 0 < Qred q) by now rewrite Qred_correct.
  destruct (ilog2_spec (Qred q) Hq') as [H1 H2].
  assert (Hr := Qred_correct q).
  unfold Num64.cexp. set (k := Num64.ilog2 (Qred q)) in *.
  set (q' := Qred q) in *. clearbody k q'.
  assert (H1' : Num64.pow2 k <= q) by lra. assert (H2' : q < Num64.pow2 (k + 1)) by lra.
  clear H1 H2 Hq' Hr q'.
  split; [lia |]. split.
  - apply Qlt_le_trans with (Num64.pow2 (k + 1)); [exact H2' |].
    apply pow2_le. lia.
  - intros He. replace (Z.max (k - 52) (-1074) + 52)%Z with k by lia.
    exact H1'.
Qed.

Lemma pow2_lt_inv a b : Num64.pow2 a < Num64.pow2 b -> (a < b)%Z.
Proof. intros H. apply (Qpower_lt_compat_l_inv 2); [exact H | reflexivity]. Qed.

Lemma Fnum_nonneg (f : Q) : Fnum f -> 0 <= f.
Proof.
  intros (z & e & _ & Hz & ->).
  apply Qmult_le_0_compat; [| apply Qlt_le_weak, pow2_pos].
  change 0 with (inject_Z 0). rewrite <- Zle_Qle. lia.
Qed.

Lemma Fnum_compat (f g : Q) : f == g -> Fnum f -> Fnum g.
Proof.
  intros H (z & e & He & Hz & Hf). exists z, e.
  split; [lia |]. split; [lia |]. now rewrite <- H.
Qed.

Lemma shift_multiple (z e e' : Z) :
  (e <= e')%Z ->
  inject_Z (z * 2 ^ (e' - e)) * Num64.pow2 e == inject_Z z * Num64.pow2 e'.
Proof.
  intros H. rewrite inject_Z_mult, pow2_Z by lia.
  rewrite <- Qmult_assoc, pow2_sub. reflexivity.
Qed.

(** [Num64.rnd q] is nearest to [q] among the numbers of [Fnum]. *)
Lemma rnd_nearest (q f : Q) :
  0 <= q -> Fnum f ->
  (f <= q -> f <= Num64.rnd q /\ Num64.rnd q <= 2 * q - f) /\
  (q <= f -> 2 * q - f <= Num64.rnd q /\ Num64.rnd q <= f).
Proof.
  intros Hq Hf. assert (Hf0 := Fnum_nonneg f Hf).
  destruct Hf as (z & e' & He' & Hz & Hf).
  destruct (Qlt_le_dec 0 q) as [Hpos | H0].
  2: { assert (Hr := rnd_zero q). assert (Hq0 : q == 0) by lra.
       specialize (Hr Hq0). split; intros H; lra. }
  destruct (cexp_spec q Hpos) as (He & Hup & Hlow).
  set (e := Num64.cexp (Qred q)) in *.
  destruct (Z_le_gt_dec e e') as [Hle | Hgt].
  - destruct (rnd_nearest_multiple q (z * 2 ^ (e' - e))) as [H1 H2].
    fold e in H1, H2. rewrite (shift_multiple z e e' Hle), <- Hf in H1, H2.
    split; assumption.
  - assert (Hlow' : Num64.pow2 (e + 52) <= q) by (apply Hlow; lia).
    assert (Hf1 : f < Num64.pow2 (e + 52)).
    { rewrite Hf.
      apply Qlt_le_trans with (inject_Z (2 ^ 53) * Num64.pow2 e').
      - apply (proj2 (Qmult_lt_r _ _ (Num64.pow2 e') (pow2_pos e'))).
        rewrite <- Zlt_Qlt. lia.
      - rewrite pow2_Z by lia. rewrite <- pow2_add. apply pow2_le. lia. }
    destruct (rnd_nearest_multiple q (2 ^ 52)) as [H1 _].
    fold e in H1.
    assert (H52 : inject_Z (2 ^ 52) * Num64.pow2 e == Num64.pow2 (e + 52)).
    { rewrite pow2_Z by lia. rewrite <- pow2_add.
      replace (52 + e)%Z with (e + 52)%Z by ring. reflexivity. }
    rewrite H52 in H1. destruct (H1 Hlow') as [Ha Hb].
    split; intros H; lra.
Qed.

(** Rounding leaves the numbers of [Fnum] alone. *)
Lemma rnd_idempotent (f : Q) : Fnum f -> Num64.rnd f == f.
Proof.
  intros Hf. destruct (rnd_nearest f f (Fnum_nonneg f Hf) Hf) as [H _].
  destruct (H (Qle_refl f)) as [Ha Hb]. lra.
Qed.

(** Rounding lands in [Fnum]. *)
Lemma rnd_Fnum (q : Q) : 0 <= q -> Fnum (Num64.rnd q).
Proof.
  intros Hq. destruct (Qlt_le_dec 0 q) as [Hpos | H0].
  2: { apply (Fnum_compat 0).
       - symmetry. apply rnd_zero. lra.
       - exists 0%Z, 0%Z. split; [lia |]. split; [lia | reflexivity]. }
  destruct (cexp_spec q Hpos) as (He & Hup & _).
  assert (Hn := rnd_nonneg q Hq).
  destruct (rnd_nearest_multiple q (2 ^ 53)) as [_ H2].
  unfold Num64.rnd, Num64.round_at in *.
  set (e := Num64.cexp (Qred q)) in *.
  set (R := Num64.rne (Qred q * Num64.pow2 (- e))) in *.
  assert (H53 : inject_Z (2 ^ 53) * Num64.pow2 e == Num64.pow2 (e + 53)).
  { rewrite pow2_Z by lia. rewrite <- pow2_add.
    replace (53 + e)%Z with (e + 53)%Z by ring. reflexivity. }
  assert (HR0 : (0 <= R)%Z).
  { rewrite Zle_Qle. apply (proj1 (Qmult_le_r _ _ (Num64.pow2 e) (pow2_pos e))).
    change (inject_Z 0) with 0. lra. }
  assert (HR1 : (R <= 2 ^ 53)%Z).
  { rewrite Zle_Qle. apply (proj1 (Qmult_le_r _ _ (Num64.pow2 e) (pow2_pos e))).
    apply H2. rewrite H53. lra. }
  destruct (Z.eq_dec R (2 ^ 53)) as [Heq | Hne].
  - exists (2 ^ 52)%Z, (e + 1)%Z. split; [lia |]. split; [lia |].
    rewrite Heq, pow2_succ.
    change (inject_Z (2 ^ 53)) with (2 * inject_Z (2 ^ 52)).
    ring.
  - exists R, e. split; [lia |]. split; [lia | reflexivity].
Qed.

(** Rounding is monotone. *)
Lemma rnd_monotone (p q : Q) : 0 <= p -> p <= q -> Num64.rnd p <= Num64.rnd q.
Proof.
  intros Hp Hpq. assert (Hq : 0 <= q) by lra.
  destruct (Qlt_le_dec (Num64.rnd q) (Num64.rnd p)) as [Hlt | Hle]; [| exact Hle].
  exfalso.
  destruct (rnd_nearest p (Num64.rnd q) Hp (rnd_Fnum q Hq)) as [H1 H2].
  destruct (rnd_nearest q (Num64.rnd p) Hq (rnd_Fnum p Hp)) as [H3 H4].
  assert (Heq : p == q).
  { destruct (Qlt_le_dec (Num64.rnd q) p) as [Ha | Ha].
    - destruct (H1 (Qlt_le_weak _ _ Ha)) as [_ Hb].
      destruct (Qlt_le_dec (Num64.rnd p) q) as [Hc | Hc].
      + destruct (H3 (Qlt_le_weak _ _ Hc)); lra.
      + destruct (H4 Hc); lra.
    - destruct (H2 Ha); lra. }
  rewrite (rnd_compat p q Heq) in Hlt. lra.
Qed.

(** The largest sample: any [Fnum] below 1 is at most [1 - 2^-53]. *)
Lemma Fnum_below_one (r : Q) : Fnum r -> r < 1 -> r <= 1 - Num64.pow2 (-53).
Proof.
  intros (z & e & He & Hz & Hr) H1.
  change (Num64.pow2 (-53)) with (1 # 9007199254740992).
  destruct (Z_le_gt_dec (-53) e) as [Hle | Hgt].
  - assert (Hs := shift_multiple z (-53) e Hle).
    rewrite <- Hr in Hs.
    change (Num64.pow2 (-53)) with (1 # 9007199254740992) in Hs.
    set (K := (z * 2 ^ (e - -53))%Z) in *.
    assert (HK : (K < 2 ^ 53)%Z).
    { rewrite Zlt_Qlt. change (inject_Z (2 ^ 53)) with 9007199254740992. lra. }
    assert (HK' : inject_Z K <= inject_Z (2 ^ 53 - 1)) by (rewrite <- Zle_Qle; lia).
    change (inject_Z (2 ^ 53 - 1)) with 9007199254740991 in HK'. lra.
  - assert (Hlt : r < Num64.pow2 (-1)).
    { rewrite Hr.
      apply Qlt_le_trans with (inject_Z (2 ^ 53) * Num64.pow2 e).
      - apply (proj2 (Qmult_lt_r _ _ (Num64.pow2 e) (pow2_pos e))).
        rewrite <- Zlt_Qlt. lia.
      - rewrite pow2_Z by lia. rewrite <- pow2_add. apply pow2_le. lia. }
    change (Num64.pow2 (-1)) with (1 # 2) in Hlt. lra.
Qed.

(** Rounding never reaches an [Fnum] [w >= 1] from [w * (1 - 2^-53)] or
    below. *)
Lemma rnd_below (w q : Q) :
  Fnum w -> 1 <= w -> 0 <= q -> q <= w * (1 - Num64.pow2 (-53)) -> Num64.rnd q < w.
Proof.
  intros Hw H1 Hq Hqw.
  change (Num64.pow2 (-53)) with (1 # 9007199254740992) in Hqw.
  assert (Hwpos : 0 < w) by lra.
  assert (Hid := rnd_idempotent w Hw).
  destruct (cexp_spec w Hwpos) as (_ & Hup & Hlow).
  unfold Num64.rnd, Num64.round_at in Hid.
  set (c := Num64.cexp (Qred w)) in *.
  set (R := Num64.rne (Qred w * Num64.pow2 (- c))) in *.
  assert (Hc : (-53 < c)%Z).
  { assert (H : Num64.pow2 0 < Num64.pow2 (c + 53)) by (change (Num64.pow2 0) with 1; lra).
    apply pow2_lt_inv in H. lia. }
  assert (Hlow' : Num64.pow2 (c + 52) <= w) by (apply Hlow; lia).
  assert (HE := pow2_pos c).
  assert (H52 : inject_Z (2 ^ 52) * Num64.pow2 c == Num64.pow2 (c + 52)).
  { rewrite pow2_Z by lia. rewrite <- pow2_add.
    replace (52 + c)%Z with (c + 52)%Z by ring. reflexivity. }
  assert (H53 : inject_Z (2 ^ 53) * Num64.pow2 c == Num64.pow2 (c + 53)).
  { rewrite pow2_Z by lia. rewrite <- pow2_add.
    replace (53 + c)%Z with (c + 53)%Z by ring. reflexivity. }
  assert (HR0 : (2 ^ 52 <= R)%Z).
  { rewrite Zle_Qle. apply (proj1 (Qmult_le_r _ _ (Num64.pow2 c) HE)). lra. }
  assert (HR1 : (R < 2 ^ 53)%Z).
  { rewrite Zlt_Qlt. apply (proj1 (Qmult_lt_r _ _ (Num64.pow2 c) HE)). lra. }
    assert (Hg : exists g, Fnum g /\ g < w /\
                         w - g < w * (1 # 4503599627370496)).
  { destruct (Z.eq_dec R (2 ^ 52)) as [Heq | Hne].
    - exists (inject_Z (2 ^ 53 - 1) * Num64.pow2 (c - 1)).
      split; [exists (2 ^ 53 - 1)%Z, (c - 1)%Z; split; [lia |];
              split; [lia | reflexivity] |].
      rewrite Heq in Hid. rewrite pow2_pred.
      change (inject_Z (2 ^ 52)) with 4503599627370496 in Hid.
      change (inject_Z (2 ^ 53 - 1)) with 9007199254740991.
      set (E := Num64.pow2 c) in *. clearbody E. split; lra.
    - exists (inject_Z (R - 1) * Num64.pow2 c).
      split; [exists (R - 1)%Z, c; split; [lia |];
              split; [lia | reflexivity] |].
      assert (HR2 : inject_Z (2 ^ 52 + 1) <= inject_Z R)
        by (rewrite <- Zle_Qle; lia).
      change (inject_Z (2 ^ 52 + 1)) with 4503599627370497 in HR2.
      apply (proj2 (Qmult_le_r _ _ (Num64.pow2 c) HE)) in HR2.
      unfold Zminus. rewrite inject_Z_plus. change (inject_Z (-1)) with (-1).
      set (E := Num64.pow2 c) in *. set (M := inject_Z R * E) in *.
      assert (HM : (inject_Z R + -1) * E == M - E) by (unfold M; ring).
      rewrite HM. clearbody M E. split; lra. }
  destruct Hg as (g & HgF & Hgw & Hgap).
  destruct (rnd_nearest q g Hq HgF) as [Ha Hb].
  destruct (Qlt_le_dec q g) as [Hlt | Hge].
  - destruct (Hb (Qlt_le_weak _ _ Hlt)). lra.
  - destruct (Ha Hge). lra.
Qed.

(** ** Arithmetic on doubles *)

Lemma round64_compat (p q : Q) : p == q -> Num64.round64 p = Num64.round64 q.
Proof.
  intros H. unfold Num64.round64.
  rewrite (rnd_compat p q H).
  assert (Hn : - p == - q) by (rewrite H; reflexivity).
  rewrite (rnd_compat (- p) (- q) Hn).
  assert (Hc : Qcompare p 0 = Qcompare q 0)
    by (rewrite H; reflexivity).
  rewrite Hc. reflexivity.
Qed.

Lemma round64_nonneg (q : Q) :
  0 <= q ->
  Num64.round64 q =
    if Qle_bool (Num64.rnd q) Num64.max_value
    then Fin (Qred (Num64.rnd q)) else PosInf.
Proof.
  intros Hq. unfold Num64.round64.
  destruct (Qcompare q 0) eqn:Hc; try reflexivity.
  apply Qlt_alt in Hc. lra.
Qed.

(** Rounding below a double gives a number at most that double. *)
Lemma round64_bounded (q B : Q) :
  0 <= q -> q <= B -> Fnum B -> B <= Num64.max_value ->
  Num64.round64 q = Fin (Qred (Num64.rnd q)) /\ Num64.rnd q <= B.
Proof.
  intros Hq HqB HB Hmax.
  assert (Hm := rnd_monotone q B Hq HqB).
  rewrite (rnd_idempotent B HB) in Hm.
  rewrite (round64_nonneg q Hq).
  assert (Hle : Num64.rnd q <= Num64.max_value) by lra.
  apply Qle_bool_iff in Hle. rewrite Hle. split; [reflexivity | exact Hm].
Qed.

Lemma round64_not_negative (q : Q) :
  0 <= q -> Num.ltb (Num64.round64 q) (Fin 0) = false.
Proof.
  intros Hq. rewrite (round64_nonneg q Hq).
  destruct (Qle_bool (Num64.rnd q) Num64.max_value); [| reflexivity].
  apply ltb_Fin_false. rewrite Qred_correct. now apply rnd_nonneg.
Qed.

(** A non-negative representable rational is an [Fnum] below
    [Number.MAX_VALUE] that rounding leaves alone. *)
Lemma representable_Fnum (q : Q) :
  0 <= q -> Num64.representable q = true ->
  Fnum q /\ q <= Num64.max_value /\ Num64.rnd q == q.
Proof.
  intros Hq. unfold Num64.representable. rewrite (round64_nonneg q Hq).
  destruct (Qle_bool (Num64.rnd q) Num64.max_value) eqn:Hle;
    [| discriminate].
  intros H. apply eqb_Fin in H. rewrite Qred_correct in H.
  apply Qle_bool_iff in Hle.
  split; [| split].
  - apply (Fnum_compat (Num64.rnd q)); [exact H | now apply rnd_Fnum].
  - lra.
  - exact H.
Qed.

Lemma Qfloor_unit (p : Q) : 0 <= p -> p < 1 -> Qfloor p = 0%Z.
Proof.
  intros H0 H1.
  assert (Ha : (0 <= Qfloor p)%Z)
    by (change 0%Z with (Qfloor 0); now apply Qfloor_resp_le).
  assert (Hb : inject_Z (Qfloor p) < inject_Z 1).
  { apply Qle_lt_trans with p; [apply Qfloor_le | exact H1]. }
  rewrite <- Zlt_Qlt in Hb. lia.
Qed.

Lemma Qfloor_nonneg (p : Q) : 0 <= p -> 0 <= inject_Z (Qfloor p).
Proof.
  intros H. change 0 with (inject_Z 0). rewrite <- Zle_Qle.
  change 0%Z with (Qfloor 0). now apply Qfloor_resp_le.
Qed.

Lemma add_Fin_comm (x y : Q) :
  Num64.add (Fin x) (Fin y) = Num64.add (Fin y) (Fin x).
Proof.
  unfold Num64.add. cbn [Num.add Num64.round].
  apply round64_compat. ring.
Qed.

(** The value [floor(r * (hi - lo)) + lo] that [between] computes on
    doubles: what the three roundings leave of the range. *)
Section Draw.

Variables lo hi r : Q.
Hypothesis Hlo : Num64.representable lo = true.
Hypothesis Hhi : Num64.representable hi = true.
Hypothesis Hr : Num64.representable r = true.
Hypothesis Hlo0 : 0 <= lo.
Hypothesis Hlt : lo < hi.
Hypothesis Hr0 : 0 <= r.
Hypothesis Hr1 : r < 1.

Let width : Q := Qred (Num64.rnd (hi + - lo)).
Let scaled : Q := Qred (Num64.rnd (r * width)).
Let steps : Q := inject_Z (Qfloor scaled).

Lemma draw_width :
  Num64.sub (Fin hi) (Fin lo) = Fin width /\
  Fnum width /\ 0 <= width /\ width <= hi /\
  width == Num64.rnd (hi + - lo).
Proof.
  destruct (representable_Fnum hi) as (FH & MH & _); [lra | exact Hhi |].
  assert (Hq : 0 <= hi + - lo) by lra.
  assert (HqB : hi + - lo <= hi) by lra.
  destruct (round64_bounded _ _ Hq HqB FH MH) as [E B].
  assert (Hw : width == Num64.rnd (hi + - lo)) by apply Qred_correct.
  assert (FW : Fnum width)
    by (apply (Fnum_compat (Num64.rnd (hi + - lo)));
        [now symmetry | now apply rnd_Fnum]).
  split; [exact E |]. split; [exact FW |].
  split; [now apply Fnum_nonneg |]. split; [lra | exact Hw].
Qed.

Lemma draw_scaled :
  Num64.mul (Fin r) (Fin width) = Fin scaled /\
  Fnum scaled /\ 0 <= scaled /\ scaled <= width /\
  (1 <= width -> scaled < width).
Proof.
  destruct draw_width as (_ & FW & W0 & WH & _).
  destruct (representable_Fnum hi) as (_ & MH & _); [lra | exact Hhi |].
  destruct (representable_Fnum r Hr0 Hr) as (FR & _ & _).
  assert (Hq : 0 <= r * width) by (apply Qmult_le_0_compat; assumption).
  assert (HqB : r * width <= width).
  { assert (H : r * width <= 1 * width)
      by (apply Qmult_le_compat_r; [lra | exact W0]).
    lra. }
  assert (MW : width <= Num64.max_value) by lra.
  destruct (round64_bounded _ _ Hq HqB FW MW) as [E B].
  assert (Hs : scaled == Num64.rnd (r * width)) by apply Qred_correct.
  assert (FS : Fnum scaled)
    by (apply (Fnum_compat (Num64.rnd (r * width)));
        [now symmetry | now apply rnd_Fnum]).
  split; [exact E |]. split; [exact FS |].
  split; [now apply Fnum_nonneg |]. split; [lra |].
  intros H1. rewrite Hs. apply rnd_below; try assumption.
  assert (H53 := Fnum_below_one r FR Hr1).
  assert (H : r * width <= (1 - Num64.pow2 (-53)) * width)
    by (apply Qmult_le_compat_r; [exact H53 | exact W0]).
  rewrite (Qmult_comm width). exact H.
Qed.

(** The number of whole steps never exceeds the exact width. *)
Lemma draw_steps :
  Num.floor (Fin scaled) = Fin steps /\
  0 <= steps /\ steps <= hi + - lo /\ (width <= 1 -> steps == 0).
Proof.
  destruct draw_width as (_ & FW & W0 & WH & Hw).
  destruct draw_scaled as (_ & FS & S0 & SW & Sbelow).
  assert (Hfl : steps <= scaled) by apply Qfloor_le.
  assert (Hn0 : 0 <= steps) by now apply Qfloor_nonneg.
  assert (Hunit : scaled < 1 -> steps == 0).
  { intros H. unfold steps. now rewrite (Qfloor_unit scaled S0 H). }
  split; [reflexivity |]. split; [exact Hn0 |]. split.
  - destruct (Qlt_le_dec (hi + - lo) width) as [Hup | Hdown]; [| lra].
    destruct (Qlt_le_dec scaled width) as [Hsw | Hsw].
    + assert (Hq : 0 <= hi + - lo) by lra.
      destruct (rnd_nearest (hi + - lo) scaled Hq FS) as [_ Hb].
      destruct (Qlt_le_dec scaled (hi + - lo)) as [Hc | Hc]; [lra |].
      destruct (Hb Hc). lra.
    + destruct (Qlt_le_dec width 1) as [Hw1 | Hw1].
      * rewrite Hunit by lra. lra.
      * specialize (Sbelow Hw1). lra.
  - intros H1. apply Hunit.
    destruct (Qlt_le_dec width 1) as [Hw1 | Hw1]; [lra |].
    specialize (Sbelow Hw1). lra.
Qed.

Lemma draw_on_doubles :
  exists v,
    Num64.add
      (Num.floor (Num64.mul (Fin r) (Num64.sub (Fin hi) (Fin lo)))) (Fin lo)
    = Fin v /\
    Num64.add (Fin lo)
      (Num.floor (Num64.mul (Fin r) (Num64.sub (Fin hi) (Fin lo))))
    = Fin v /\
    lo <= v /\ v <= hi /\ (hi + - lo <= 1 -> v == lo).
Proof.
  destruct draw_width as (E1 & FW & W0 & WH & Hw).
  destruct draw_scaled as (E2 & _).
  destruct draw_steps as (E3 & N0 & NH & Nsmall).
  destruct (representable_Fnum lo Hlo0 Hlo) as (FL & _ & IL).
  destruct (representable_Fnum hi) as (FH & MH & _); [lra | exact Hhi |].
  rewrite E1, E2, E3. rewrite (add_Fin_comm lo steps).
  change (Num64.add (Fin steps) (Fin lo)) with (Num64.round64 (steps + lo)).
  assert (Hq : 0 <= steps + lo) by lra.
  assert (HqB : steps + lo <= hi) by lra.
  destruct (round64_bounded _ _ Hq HqB FH MH) as [E4 B4].
  assert (Hmono : Num64.rnd lo <= Num64.rnd (steps + lo))
    by (apply rnd_monotone; lra).
  exists (Qred (Num64.rnd (steps + lo))).
  split; [exact E4 |]. split; [exact E4 |]. rewrite Qred_correct.
  split; [lra |]. split; [exact B4 |].
  intros Hsmall.
  assert (Hw1 : width <= 1).
  { rewrite Hw.
    assert (F1 : Fnum 1)
      by (exists 1%Z, 0%Z; split; [lia |]; split; [lia | reflexivity]).
    rewrite <- (rnd_idempotent 1 F1). apply rnd_monotone; lra. }
  assert (Hzero : steps + lo == lo) by (rewrite (Nsmall Hw1); ring).
  rewrite (rnd_compat _ _ Hzero). exact IL.
Qed.

End Draw.

(** ** [between] on doubles *)

Lemma rounded_between_of_durations (a b : Duration) (rs : RandomSource) :
  Rounded.between (Dur a) (Dur b) rs =
    if isForever a && isForever b then (Ok (forever tt), rs)
    else
      match effective_magnitude a, effective_magnitude b with
      | Ok l, Ok r =>
          if Num.ltb l r then
            (fromMilliseconds
               (Num64.add (fst (Rounded.randInt (Num64.sub r l) rs)) l),
             snd (Rounded.randInt (Num64.sub r l) rs))
          else if Num.ltb r l then
            (fromMilliseconds
               (Num64.add (fst (Rounded.randInt (Num64.sub l r) rs)) r),
             snd (Rounded.randInt (Num64.sub l r) rs))
          else (Ok a, rs)
      | Err e, _ | _, Err e => (Err e, rs)
      end.
Proof.
  unfold Rounded.between. simpl.
  destruct (isForever a && isForever b); [reflexivity |].
  destruct (effective_magnitude a) as [l | e]; [| reflexivity].
  destruct (effective_magnitude b) as [r | e]; [| reflexivity].
  destruct (Num.ltb l r); [reflexivity |].
  destruct (Num.ltb r l); reflexivity.
Qed.

(** One draw of [between] between two doubles [lo < hi]. *)
Lemma rounded_draw (lo hi : Q) (rs : RandomSource) :
  valid_double_source rs ->
  Num64.representable lo = true -> Num64.representable hi = true ->
  0 <= lo -> lo < hi ->
  exists v,
    Num64.add (fst (Rounded.randInt (Num64.sub (Fin hi) (Fin lo)) rs)) (Fin lo)
    = Fin v /\
    Num64.add (Fin lo) (fst (Rounded.randInt (Num64.sub (Fin hi) (Fin lo)) rs))
    = Fin v /\
    lo <= v /\ v <= hi /\ (hi + - lo <= 1 -> v == lo).
Proof.
  intros Hrs Hlo Hhi Hlo0 Hlt.
  destruct (Hrs (consumed rs)) as (Hr0 & Hr1 & Hr).
  unfold Rounded.randInt, Math_random. cbn [fst].
  exact (draw_on_doubles lo hi (samples rs (consumed rs))
           Hlo Hhi Hr Hlo0 Hlt Hr0 Hr1).
Qed.




(** ** The data-model invariant on doubles *)

Lemma round_not_negative (x : number) :
  Num.ltb x (Fin 0) = false -> Num.ltb (Num64.round x) (Fin 0) = false.
Proof.
  destruct x as [q | | |]; try (intros; assumption).
  intros H. apply ltb_Fin_false in H. now apply round64_not_negative.
Qed.

Lemma exact_add_not_negative (x y : number) :
  Num.ltb x (Fin 0) = false -> Num.ltb y (Fin 0) = false ->
  Num.ltb (Num.add x y) (Fin 0) = false.
Proof.
  destruct x as [a | | |], y as [b | | |];
    try discriminate; try reflexivity.
  intros Ha Hb. apply ltb_Fin_false in Ha, Hb.
  cbn [Num.add]. apply ltb_Fin_false. lra.
Qed.

Lemma exact_mul_not_negative (x t : number) :
  Num.ltb x (Fin 0) = false -> Num.ltb (Fin 0) t = true ->
  Num.ltb (Num.mul x t) (Fin 0) = false.
Proof.
  intros Hx Ht. destruct (positive_cases t Ht) as [(q & -> & Hq) | ->].
  - destruct x as [a | | |]; try discriminate; try reflexivity.
    + apply ltb_Fin_false in Hx. cbn [Num.mul]. apply ltb_Fin_false. nra.
    + unfold Num.mul, Num.sign. now rewrite (proj1 (Qgt_alt q 0) Hq).
  - destruct x as [a | | |]; try discriminate; try reflexivity.
    apply ltb_Fin_false in Hx. unfold Num.mul, Num.sign.
    destruct (Qcompare a 0) eqn:Hc; try reflexivity.
    apply Qlt_alt in Hc. lra.
Qed.

Lemma never_negative_new (x : number) :
  Num.ltb x (Fin 0) = false -> never_negative (new_Duration x false).
Proof. intros H. exact H. Qed.

Lemma fromMilliseconds_never_negative (x : number) (d : Duration) :
  fromMilliseconds x = Ok d -> never_negative d.
Proof.
  unfold fromMilliseconds, Check.verifyNotNegative.
  destruct (Num.ltb x (Fin 0)) eqn:H; [discriminate |].
  intros [= <-]. now apply never_negative_new.
Qed.

Lemma rounded_fromSeconds_never_negative (x : number) (d : Duration) :
  Rounded.fromSeconds x = Ok d -> never_negative d.
Proof.
  unfold Rounded.fromSeconds, Check.verifyNotNegative.
  destruct (Num.ltb x (Fin 0)) eqn:H; [discriminate |].
  intros [= <-]. apply never_negative_new, round_not_negative.
  now apply exact_mul_not_negative.
Qed.

Lemma rounded_fromMinutes_never_negative (x : number) (d : Duration) :
  Rounded.fromMinutes x = Ok d -> never_negative d.
Proof.
  unfold Rounded.fromMinutes, Check.verifyNotNegative.
  destruct (Num.ltb x (Fin 0)); [discriminate |].
  apply rounded_fromSeconds_never_negative.
Qed.

Lemma rounded_fromHours_never_negative (x : number) (d : Duration) :
  Rounded.fromHours x = Ok d -> never_negative d.
Proof.
  unfold Rounded.fromHours, Check.verifyNotNegative.
  destruct (Num.ltb x (Fin 0)); [discriminate |].
  apply rounded_fromMinutes_never_negative.
Qed.

Lemma rounded_fromDays_never_negative (x : number) (d : Duration) :
  Rounded.fromDays x = Ok d -> never_negative d.
Proof.
  unfold Rounded.fromDays, Check.verifyNotNegative.
  destruct (Num.ltb x (Fin 0)); [discriminate |].
  apply rounded_fromHours_never_negative.
Qed.

Lemma rounded_add_never_negative (a b d : Duration) :
  never_negative a -> never_negative b ->
  Rounded.add a (Dur b) = Ok d -> never_negative d.
Proof.
  unfold never_negative. intros Ha Hb.
  unfold Rounded.add, toMilliseconds. simpl.
  destruct (this_forever b) eqn:Hfb; [discriminate |]. simpl.
  intros [= <-]. rewrite orb_false_r. cbn [new_Duration this_forever].
  destruct (this_forever a) eqn:Hfa; [reflexivity |].
  cbn [this_milliseconds]. apply round_not_negative.
  now apply exact_add_not_negative.
Qed.

Lemma rounded_multiply_never_negative (a d : Duration) (t : number) :
  never_negative a -> Rounded.multiply a t = Ok d -> never_negative d.
Proof.
  unfold never_negative. intros Ha.
  unfold Rounded.multiply, Check.verifyPositive.
  destruct (Num.ltb (Fin 0) t) eqn:Ht; [| discriminate].
  intros [= <-]. cbn [new_Duration this_forever].
  destruct (this_forever a) eqn:Hfa; [reflexivity |].
  cbn [this_milliseconds]. apply round_not_negative.
  now apply exact_mul_not_negative.
Qed.

Lemma rounded_between_never_negative (a b d : Duration) (rs : RandomSource) :
  never_negative a ->
  fst (Rounded.between (Dur a) (Dur b) rs) = Ok d -> never_negative d.
Proof.
  intros Ha. rewrite rounded_between_of_durations.
  destruct (isForever a && isForever b).
  - intros [= <-]. reflexivity.
  - destruct (effective_magnitude a) as [l | e]; [| discriminate].
    destruct (effective_magnitude b) as [r | e]; [| discriminate].
    destruct (Num.ltb l r); [apply fromMilliseconds_never_negative |].
    destruct (Num.ltb r l); [apply fromMilliseconds_never_negative |].
    now intros [= <-].
Qed.

(** Finite arguments do not keep the magnitude finite:
    [Duration.fromSeconds(Number.MAX_VALUE)] overflows to a non-forever
    duration that stores [Infinity]. *)
Lemma finite_arguments_overflow :
  Rounded.reachable (new_Duration PosInf false) /\
  ~ invariant (new_Duration PosInf false).
Proof.
  split.
  - apply (Rounded.reach_fromSeconds Num.MAX_VALUE). vm_compute. reflexivity.
  - intros (q & Hq & _). discriminate Hq.
Qed.

(** C3, amended.  Every duration reachable through the factories and
    operations, computed on doubles from any numbers, keeps this much of the
    invariant: a forever instance stores [Infinity], and the magnitude of a
    non-forever instance is never negative.  It need not be finite. *)
Theorem reachable_never_negative (d : Duration) :
  Rounded.reachable d -> never_negative d.
Proof.
  induction 1 as [x d Hd | x d Hd | x d Hd | x d Hd | x d Hd
                 | | a b d _ IHa _ IHb Hd | a t d _ IHa Hd
                 | a b rs d _ IHa _ IHb _ Hd].
  - exact (fromMilliseconds_never_negative x d Hd).
  - exact (rounded_fromSeconds_never_negative x d Hd).
  - exact (rounded_fromMinutes_never_negative x d Hd).
  - exact (rounded_fromHours_never_negative x d Hd).
  - exact (rounded_fromDays_never_negative x d Hd).
  - reflexivity.
  - exact (rounded_add_never_negative a b d IHa IHb Hd).
  - exact (rounded_multiply_never_negative a d t IHa Hd).
  - exact (rounded_between_never_negative a b d rs IHa Hd).
Qed.

Lemma reachable_never_negative_witness :
  never_negative (new_Duration PosInf false).
Proof.
  apply (reachable_never_negative (new_Duration PosInf false)).
  apply (Rounded.reach_fromSeconds Num.MAX_VALUE).
  vm_compute. reflexivity.
Defined.

(** ** [Num64] against the reference implementation of IEEE 754

    The Standard Library's [SpecFloat] is the specification that Rocq's
    hardware floats are checked against.  On these operands, which include
    ties, inexact results, subnormal numbers and overflow, the operations of
    [Num64] return the number that [SpecFloat] returns for binary64
    (precision 53, exponents up to 1024). *)

Example add_agrees_with_reference :
  let d01 := SpecFloat.S754_finite false 7205759403792794 (-56) in
  let d02 := SpecFloat.S754_finite false 7205759403792794 (-55) in
  let big := SpecFloat.S754_finite false 4503599627370497 1 in
  let one := SpecFloat.S754_finite false 1 0 in
  let top := SpecFloat.S754_finite false 9007199254740991 971 in
  let tiny := SpecFloat.S754_finite false 1 (-1074) in
  Num64.of_spec_float (SpecFloat.SFadd 53 1024 d01 d02)
  = Num64.add (Num64.of_spec_float d01) (Num64.of_spec_float d02) /\
  Num64.of_spec_float (SpecFloat.SFadd 53 1024 big one)
  = Num64.add (Num64.of_spec_float big) (Num64.of_spec_float one) /\
  Num64.of_spec_float (SpecFloat.SFadd 53 1024 top top)
  = Num64.add (Num64.of_spec_float top) (Num64.of_spec_float top) /\
  Num64.of_spec_float (SpecFloat.SFadd 53 1024 tiny d01)
  = Num64.add (Num64.of_spec_float tiny) (Num64.of_spec_float d01).
Proof. vm_compute. repeat split. Qed.

Example sub_agrees_with_reference :
  let d12 := SpecFloat.S754_finite false 5404319552844595 (-52) in
  let d22 := SpecFloat.S754_finite false 4953959590107546 (-51) in
  let five := SpecFloat.S754_finite false 5 0 in
  let top := SpecFloat.S754_finite false 9007199254740991 971 in
  Num64.of_spec_float (SpecFloat.SFsub 53 1024 d22 d12)
  = Num64.sub (Num64.of_spec_float d22) (Num64.of_spec_float d12) /\
  Num64.of_spec_float (SpecFloat.SFsub 53 1024 top five)
  = Num64.sub (Num64.of_spec_float top) (Num64.of_spec_float five).
Proof. vm_compute. repeat split. Qed.

Example mul_agrees_with_reference :
  let d001 := SpecFloat.S754_finite false 5764607523034235 (-59) in
  let d24 := SpecFloat.S754_finite false 24 0 in
  let d1000 := SpecFloat.S754_finite false 1000 0 in
  let top := SpecFloat.S754_finite false 9007199254740991 971 in
  let tiny := SpecFloat.S754_finite false 3 (-1074) in
  let half := SpecFloat.S754_finite false 1 (-1) in
  Num64.of_spec_float (SpecFloat.SFmul 53 1024 d001 d24)
  = Num64.mul (Num64.of_spec_float d001) (Num64.of_spec_float d24) /\
  Num64.of_spec_float (SpecFloat.SFmul 53 1024 top d1000)
  = Num64.mul (Num64.of_spec_float top) (Num64.of_spec_float d1000) /\
  Num64.of_spec_float (SpecFloat.SFmul 53 1024 tiny half)
  = Num64.mul (Num64.of_spec_float tiny) (Num64.of_spec_float half).
Proof. vm_compute. repeat split. Qed.

Example div_agrees_with_reference :
  let one := SpecFloat.S754_finite false 1 0 in
  let d1000 := SpecFloat.S754_finite false 1000 0 in
  let d3600000 := SpecFloat.S754_finite false 3600000 0 in
  let d60 := SpecFloat.S754_finite false 60 0 in
  Num64.of_spec_float (SpecFloat.SFdiv 53 1024 one d1000)
  = Num64.div (Num64.of_spec_float one) (Num64.of_spec_float d1000) /\
  Num64.of_spec_float (SpecFloat.SFdiv 53 1024 one d3600000)
  = Num64.div (Num64.of_spec_float one) (Num64.of_spec_float d3600000) /\
  Num64.of_spec_float
    (SpecFloat.SFdiv 53 1024 (SpecFloat.SFdiv 53 1024 one d1000) d60)
  = Num64.div (Num64.div (Num64.of_spec_float one) (Num64.of_spec_float d1000))
      (Num64.of_spec_float d60).
Proof. vm_compute. repeat split. Qed.

(** ** Concrete runs on doubles *)

(** [0.1 + 0.2] is [0.30000000000000004], not [0.3]. *)
Example run_rounded_sum :
  Num64.add (Num64.round64 (1 # 10)) (Num64.round64 (2 # 10))
  = Num64.round64 (30000000000000004 # 100000000000000000) /\
  Num64.add (Num64.round64 (1 # 10)) (Num64.round64 (2 # 10))
  <> Num64.round64 (3 # 10).
Proof. vm_compute. split; [reflexivity | discriminate]. Qed.

(** [add] is not associative: [(0.1 + 0.2) + 0.3] is [0.6000000000000001]
    and [0.1 + (0.2 + 0.3)] is [0.6]. *)
Example run_rounded_add_not_associative :
  let d (q : Q) := mkDuration (Num64.round64 q) false in
  (ab <- Rounded.add (d (1 # 10)) (Dur (d (2 # 10))) ;;
   Rounded.add ab (Dur (d (3 # 10))))
  = Ok (d (6000000000000001 # 10000000000000000)) /\
  (bc <- Rounded.add (d (2 # 10)) (Dur (d (3 # 10))) ;;
   Rounded.add (d (1 # 10)) (Dur bc))
  = Ok (d (6 # 10)).
Proof. vm_compute. split; reflexivity. Qed.

(** [Duration.fromDays(0.01)] stores [863999.9999999999] milliseconds. *)
Example run_rounded_fromDays :
  Rounded.fromDays (Num64.round64 (1 # 100))
  = Ok (new_Duration (Num64.round64 (8639999999999999 # 10000000000)) false).
Proof. vm_compute. reflexivity. Qed.

(** [Duration.fromMilliseconds(1).toHours()] is [2.777777777777778e-7],
    which is not the double nearest to [1 / 3600000]. *)
Example run_rounded_toHours :
  (d <- fromMilliseconds (Fin 1) ;; Rounded.toHours d)
  = Ok (Num64.round64 (2777777777777778 # 10000000000000000000000)) /\
  (d <- fromMilliseconds (Fin 1) ;; Rounded.toHours d)
  <> Ok (Num64.round64 (1 # 3600000)).
Proof. vm_compute. split; [reflexivity | discriminate]. Qed.

(** [Duration.fromMilliseconds(Number.MAX_VALUE).multiply(2)] is a
    non-forever duration that stores [Infinity]. *)
Example run_rounded_overflow :
  (d <- fromMilliseconds Num.MAX_VALUE ;; Rounded.multiply d (Fin 2))
  = Ok (new_Duration PosInf false).
Proof. vm_compute. reflexivity. Qed.

(** [Duration.between(Duration.forever(), Duration.fromMilliseconds(5))] with
    the sample 0.5: [Number.MAX_VALUE - 5] rounds to [Number.MAX_VALUE], and
    the result is [Number.MAX_VALUE / 2]. *)
Example run_rounded_between_forever :
  fst (Rounded.between (Dur (forever tt)) (Dur (mkDuration (Fin 5) false))
         (constant_source (1 # 2)))
  = Ok (mkDuration (Fin (inject_Z ((2 ^ 53 - 1) * 2 ^ 970))) false).
Proof. vm_compute. reflexivity. Qed.

(** [Duration.between(Duration.fromMilliseconds(1.2),
    Duration.fromMilliseconds(2.2))] with the largest sample below 1 returns
    the larger magnitude. *)
Example run_rounded_between_reaches_high :
  fst (Rounded.between (Dur (mkDuration (Num64.round64 (12 # 10)) false))
         (Dur (mkDuration (Num64.round64 (22 # 10)) false))
         (constant_source (1 - Num64.pow2 (-53))))
  = Ok (mkDuration (Num64.round64 (22 # 10)) false).
Proof. vm_compute. reflexivity. Qed.

(** ** Further properties on doubles *)

Lemma max_value_representable :
  Num64.representable Num64.max_value = true.
Proof. vm_compute. reflexivity. Qed.

Lemma num64_add_comm (x y : number) : Num64.add x y = Num64.add y x.
Proof.
  destruct x as [a | | |], y as [b | | |]; try reflexivity.
  apply add_Fin_comm.
Qed.

Lemma finite_double_duration_inv (d : Duration) :
  finite_double_duration d = true ->
  exists q, d = mkDuration (Fin q) false /\ 0 <= q /\
            Num64.representable q = true.
Proof.
  destruct d as [[q | | |] [|]]; try discriminate.
  unfold finite_double_duration.
  cbn [this_forever this_milliseconds negb andb].
  intros H. apply andb_true_iff in H. destruct H as [H0 Hr].
  exists q. split; [reflexivity |]. split; [now apply Qle_bool_iff | exact Hr].
Qed.

(** X4. On doubles, [a.add(b)] and [b.add(a)] are the same duration for any
    two non-forever durations, and adding [fromMilliseconds(0)] to a finite
    duration returns an equivalent duration.  ([add] is not associative on
    doubles.) *)
Theorem rounded_add_commutative_with_zero (a b : Duration) :
  this_forever a = false -> this_forever b = false ->
  Rounded.add a (Dur b) = Rounded.add b (Dur a) /\
  (finite_double_duration a = true ->
     exists d, (z <- fromMilliseconds (Fin 0) ;; Rounded.add a (Dur z)) = Ok d /\
               equivalent d a = true).
Proof.
  intros Ha Hb. split.
  - unfold Rounded.add, toMilliseconds. rewrite Ha, Hb. simpl.
    now rewrite (num64_add_comm (this_milliseconds a) (this_milliseconds b)).
  - intros Hfin.
    destruct (finite_double_duration_inv a Hfin) as (q & -> & Hq & Hr).
    change (fromMilliseconds (Fin 0)) with (Ok (mkDuration (Fin 0) false)).
    cbn [bind]. unfold Rounded.add, toMilliseconds. simpl.
    eexists. split; [reflexivity |].
    unfold equivalent. cbn [new_Duration this_forever this_milliseconds].
    cbn [Bool.eqb andb].
    change (Num64.add (Fin q) (Fin 0)) with (Num64.round64 (q + 0)).
    assert (H0 : q + 0 == q) by ring.
    rewrite (round64_compat _ _ H0). exact Hr.
Qed.

Lemma rounded_add_commutative_with_zero_witness :
  Rounded.add (mkDuration (Num64.round64 (1 # 10)) false)
    (Dur (mkDuration (Num64.round64 (2 # 10)) false))
  = Rounded.add (mkDuration (Num64.round64 (2 # 10)) false)
      (Dur (mkDuration (Num64.round64 (1 # 10)) false)) /\
  (exists d,
     (z <- fromMilliseconds (Fin 0) ;;
      Rounded.add (mkDuration (Num64.round64 (1 # 10)) false) (Dur z)) = Ok d /\
     equivalent d (mkDuration (Num64.round64 (1 # 10)) false) = true).
Proof.
  destruct (rounded_add_commutative_with_zero
              (mkDuration (Num64.round64 (1 # 10)) false)
              (mkDuration (Num64.round64 (2 # 10)) false) eq_refl eq_refl)
    as [Hcomm Hzero].
  split; [exact Hcomm |]. apply Hzero. vm_compute. reflexivity.
Defined.

(** X11. On doubles, with exactly one forever argument, in either position,
    and a finite duration below [Number.MAX_VALUE] as the other, [between]
    returns in both orders the same non-forever duration, whose magnitude
    lies between that of the finite argument and [Number.MAX_VALUE], both
    included. *)
Theorem rounded_between_forever_and_finite
  (a b : Duration) (rs : RandomSource) :
  valid_double_source rs ->
  this_forever a = true -> finite_double_duration b = true ->
  Num.ltb (this_milliseconds b) Num.MAX_VALUE = true ->
  exists v,
    fst (Rounded.between (Dur a) (Dur b) rs) = Ok (mkDuration (Fin v) false) /\
    fst (Rounded.between (Dur b) (Dur a) rs) = Ok (mkDuration (Fin v) false) /\
    Num.leb (this_milliseconds b) (Fin v) = true /\
    Num.leb (Fin v) Num.MAX_VALUE = true.
Proof.
  intros Hrs Ha Hb Hlt.
  destruct (finite_double_duration_inv b Hb) as (q & -> & Hq & Hr).
  cbn [this_milliseconds] in *.
  rewrite !rounded_between_of_durations. unfold isForever. rewrite Ha.
  cbn [this_forever andb].
  rewrite (effective_magnitude_forever a Ha).
  rewrite (effective_magnitude_finite (mkDuration (Fin q) false) eq_refl).
  cbn [this_milliseconds].
  change Num.MAX_VALUE with (Fin Num64.max_value) in *.
  rewrite Hlt. apply ltb_Fin in Hlt.
  rewrite (proj2 (ltb_Fin_false Num64.max_value q)) by lra.
  destruct (rounded_draw q Num64.max_value rs Hrs Hr
              max_value_representable Hq Hlt)
    as (v & Hv & _ & Hlo & Hhi & _).
  exists v. cbn [fst]. rewrite Hv.
  rewrite fromMilliseconds_nonneg by lra.
  repeat split; now apply leb_Fin.
Qed.

Lemma rounded_between_forever_and_finite_witness :
  exists v,
    fst (Rounded.between (Dur (forever tt)) (Dur (mkDuration (Fin 5) false))
           (constant_source (1 # 2)))
    = Ok (mkDuration (Fin v) false) /\
    fst (Rounded.between (Dur (mkDuration (Fin 5) false)) (Dur (forever tt))
           (constant_source (1 # 2)))
    = Ok (mkDuration (Fin v) false) /\
    Num.leb (this_milliseconds (mkDuration (Fin 5) false)) (Fin v) = true /\
    Num.leb (Fin v) Num.MAX_VALUE = true.
Proof.
  apply (rounded_between_forever_and_finite
           (forever tt) (mkDuration (Fin 5) false) (constant_source (1 # 2))).
  - intros n. cbn [constant_source samples].
    split; [lra |]. split; [lra | vm_compute; reflexivity].
  - reflexivity.
  - vm_compute. reflexivity.
  - vm_compute. reflexivity.
Defined.

(** X12. On doubles, between two non-forever durations whose magnitudes are
    distinct non-negative doubles at most one millisecond apart, [between]
    returns a duration of the smaller magnitude, whatever the sample. *)
Theorem rounded_between_within_one_millisecond
  (a b : Duration) (qa qb : Q) (rs : RandomSource) :
  valid_double_source rs ->
  this_forever a = false -> this_forever b = false ->
  this_milliseconds a = Fin qa -> this_milliseconds b = Fin qb ->
  Num64.representable qa = true -> Num64.representable qb = true ->
  0 <= qa -> 0 <= qb -> ~ qa == qb ->
  Qmax qa qb - Qmin qa qb <= 1 ->
  exists v,
    fst (Rounded.between (Dur a) (Dur b) rs)
    = Ok (new_Duration (Fin v) false) /\
    v == Qmin qa qb.
Proof.
  intros Hrs Ha Hb Hqa Hqb Hra Hrb Ha0 Hb0 Hne Hgap.
  rewrite rounded_between_of_durations.
  rewrite (effective_magnitude_finite a Ha), (effective_magnitude_finite b Hb).
  unfold isForever. rewrite Ha, Hb, Hqa, Hqb. cbn [andb].
  destruct (Qlt_le_dec qa qb) as [Hlt | Hge].
  - destruct (Qmin_Qmax_of_lt qa qb Hlt) as [Hmin Hmax].
    rewrite Hmin, Hmax in *.
    rewrite (proj2 (ltb_Fin qa qb) Hlt). cbn [fst].
    destruct (rounded_draw qa qb rs Hrs Hra Hrb Ha0 Hlt)
      as (v & Hv & _ & Hlo & Hhi & Hsmall).
    exists v. rewrite Hv.
    split; [apply fromMilliseconds_nonneg; lra |].
    apply Hsmall. unfold Qminus in Hgap. exact Hgap.
  - assert (Hgt : qb < qa).
    { destruct (Qlt_le_dec qb qa) as [H | H]; [exact H |].
      exfalso. apply Hne. lra. }
    destruct (Qmin_Qmax_of_gt qa qb Hgt) as [Hmin Hmax].
    rewrite Hmin, Hmax in *.
    rewrite (proj2 (ltb_Fin_false qa qb) Hge), (proj2 (ltb_Fin qb qa) Hgt).
    cbn [fst].
    destruct (rounded_draw qb qa rs Hrs Hrb Hra Hb0 Hgt)
      as (v & Hv & _ & Hlo & Hhi & Hsmall).
    exists v. rewrite Hv.
    split; [apply fromMilliseconds_nonneg; lra |].
    apply Hsmall. unfold Qminus in Hgap. exact Hgap.
Qed.

Lemma rounded_between_within_one_millisecond_witness :
  exists v,
    fst (Rounded.between (Dur (mkDuration (Fin 1) false))
           (Dur (mkDuration (Fin (1 # 2)) false))
           (constant_source (3 # 4)))
    = Ok (new_Duration (Fin v) false) /\
    v == Qmin 1 (1 # 2).
Proof.
  apply (rounded_between_within_one_millisecond
           (mkDuration (Fin 1) false) (mkDuration (Fin (1 # 2)) false)
           1 (1 # 2) (constant_source (3 # 4))).
  - intros n. cbn [constant_source samples].
    split; [lra |]. split; [lra | vm_compute; reflexivity].
  - reflexivity.
  - reflexivity.
  - reflexivity.
  - reflexivity.
  - vm_compute. reflexivity.
  - vm_compute. reflexivity.
  - lra.
  - lra.
  - lra.
  - vm_compute. discriminate.
Defined.
